(** * carml: asynchronous coordination of circuit, event and relay commands

    A shallow embedding of [carml_events.py], [carml_circ.py] and
    [carml_relay.py].  The code is Python 2 on top of Twisted and txtorcon:
    every [@defer.inlineCallbacks] generator is embedded as its resumption
    points (one function per stretch of code between two [yield]s), the
    process-wide effects (stdout, the listener tables of the Tor protocol and
    of the Tor state, the requests sent to the daemon) are threaded through
    explicitly, and a raised exception is a value of [Py.exn]. *)

From stdpp Require Import base option list gmap strings pretty.
From Stdlib Require Import ZArith Ascii Lia.

Local Open Scope Z_scope.

(** ** Python values shared by the three modules *)
Module Py.

(** The exception classes the three modules raise or meet. *)
Inductive exn : Type :=
| RuntimeError (msg : string)
| KeyError
| IndexError
| UnboundLocalError (var : string)
| AlreadyCalledError
| TypeError
| AttributeError
| TorProtocolError (msg : string).

#[global] Instance exn_eq_dec : EqDecision exn.
Proof. solve_decision. Defined.

(** The double quote character, for messages that print one. *)
Definition dq : string := String "034"%char EmptyString.

(** [str.upper()] and [str.lower()] on a byte string (Python 2 [str]). *)
Definition upper_char (c : ascii) : ascii :=
  let n := nat_of_ascii c in
  if (97 <=? n)%nat && (n <=? 122)%nat
  then ascii_of_nat (n - 32) else c.

Definition lower_char (c : ascii) : ascii :=
  let n := nat_of_ascii c in
  if (65 <=? n)%nat && (n <=? 90)%nat
  then ascii_of_nat (n + 32) else c.

Fixpoint upper (s : string) : string :=
  match s with
  | EmptyString => EmptyString
  | String c s' => String (upper_char c) (upper s')
  end.

Fixpoint lower (s : string) : string :=
  match s with
  | EmptyString => EmptyString
  | String c s' => String (lower_char c) (lower s')
  end.

(** [needle in hay] for two strings: [needle] occurs as a contiguous run of
    characters of [hay]. *)
Fixpoint str_in (needle hay : string) : bool :=
  String.prefix needle hay ||
  match hay with
  | EmptyString => false
  | String _ hay' => str_in needle hay'
  end.

(** [s.split()]: the maximal runs of non-blank characters. *)
Definition split (s : string) : list string := String.words s.

(** [s.startswith(p)]. *)
Definition startswith (s p : string) : bool := String.prefix p s.

(** [len(s)]. *)
Definition len (s : string) : nat := String.length s.

(** Truth value of a string: the empty string is false. *)
Definition truthy (s : string) : bool :=
  match s with EmptyString => false | String _ _ => true end.

(** [random.choice(seq)]: [seq[int(random() * len(seq))]], an [IndexError] on
    the empty sequence.  [draw] stands for the random number: every index of
    [seq] is the outcome of some draw. *)
Definition choice {A} (draw : nat) (seq : list A) : exn + A :=
  match seq !! (draw `mod` length seq)%nat with
  | Some x => inr x
  | None => inl IndexError
  end.

(** [s.split(sep)] for a one-character separator: the pieces between the
    separators, empty ones included; the empty string gives one empty
    piece. *)
Fixpoint split_on (sep : ascii) (s : string) : list string :=
  match s with
  | EmptyString => [EmptyString]
  | String c s' =>
      if decide (c = sep) then EmptyString :: split_on sep s'
      else
        match split_on sep s' with
        | x :: xs => String c x :: xs
        | [] => [String c EmptyString]
        end
  end.

(** [s[1:]]. *)
Definition drop_first (s : string) : string :=
  match s with
  | EmptyString => EmptyString
  | String _ s' => s'
  end.

End Py.

(** ** Twisted's [Deferred], as far as the modules use it *)
Module Twisted.
Import Py.

(** A [Deferred] holds no result until [callback] or [errback] is called;
    calling either a second time raises [AlreadyCalledError] and leaves the
    result as it was. *)
Inductive Deferred : Type :=
| NotCalled
| Called (result : exn + unit).

#[global] Instance Deferred_eq_dec : EqDecision Deferred.
Proof. solve_decision. Defined.

Definition callback (d : Deferred) : option exn * Deferred :=
  match d with
  | NotCalled => (None, Called (inr tt))
  | Called _ => (Some AlreadyCalledError, d)
  end.

Definition errback (e : exn) (d : Deferred) : option exn * Deferred :=
  match d with
  | NotCalled => (None, Called (inl e))
  | Called _ => (Some AlreadyCalledError, d)
  end.

Definition called (d : Deferred) : bool :=
  match d with NotCalled => false | Called _ => true end.

End Twisted.

(** ** carml_events.py *)
Module Events.
Import Py Twisted.

(** What [run] shares with the listeners it registers: the one-element list
    [counter] and the deferred [all_done], both variables of [run]. *)
Record closure : Type := Closure {
  counter : option Z;
  all_done : Deferred
}.

(** A listener is [functools.partial(_got_event, evt)]: it is known by the
    [evt] it binds, the event name or [None]. *)
Definition listener : Type := option string.

(** The protocol's listener table ([add_event_listener(name, callback)], in
    registration order) and what has been printed. *)
Record world : Type := World {
  stdout : list string;
  listeners : list (string * listener)
}.

Definition print (line : string) (w : world) : world :=
  World (stdout w ++ [line]) (listeners w).

Definition add_event_listener (name : string) (l : listener) (w : world) : world :=
  World (stdout w) (listeners w ++ [(name, l)]).

(** A local variable of a Python function: unbound until assigned. *)
Inductive local (A : Type) : Type :=
| Unbound
| Bound (v : A).
Arguments Unbound {A}.
Arguments Bound {A} v.

(** [_got_event(evt, msg)], called at clock reading [ts] (the value
    [time.asctime()] would return).  The body assigns [all_done], and there
    is no [global] declaration: [all_done] is a local variable of
    [_got_event], unbound when [elif all_done:] reads it, and the [all_done]
    of [run] is out of its reach.  The result is the exception raised (if
    any), the closure and the lines printed. *)
Definition _got_event (evt : option string) (msg ts : string)
    (c : closure) (out : list string) : option exn * closure * list string :=
  let local_all_done : local (option Deferred) := Unbound in
  match counter c with
  | Some n =>
      let c1 := Closure (Some (n - 1)) (all_done c) in
      if 0 <=? n - 1 then (None, c1, out ++ [msg])
      else
        match local_all_done with
        | Unbound => (Some (UnboundLocalError "all_done"), c1, out)
        | Bound None => (None, c1, out)
        | Bound (Some d) => (fst (callback d), c1, out)
        end
  | None =>
      match evt with
      | Some e =>
          if truthy e then (None, c, out ++ [e +:+ ": " +:+ msg])
          else (None, c, out ++ [ts +:+ " " +:+ msg])
      | None => (None, c, out ++ [ts +:+ " " +:+ msg])
      end
  end.

(** The listener the loop of [run] makes for the event name [e]. *)
Definition make_listener (show_event : bool) (e : string) : listener :=
  if show_event then Some e else None.

(** The [for e in events] loop of [run]: [true] when it ran to its end,
    [false] when it left through [return]. *)
Fixpoint subscribe (all_events : string) (show_event : bool)
    (events : list string) (w : world) : bool * world :=
  match events with
  | [] => (true, w)
  | e :: rest =>
      let e := upper e in
      if negb (str_in e all_events) then
        (false, print ("Invalid event: " +:+ e) w)
      else
        let listener := make_listener show_event e in
        subscribe all_events show_event rest (add_event_listener e listener w)
  end.

(** How [run] leaves off: the generator returned (its deferred fires with
    [None]; the closure is the one its listeners share, if it got that far),
    or it is suspended at [yield all_done]. *)
Inductive status : Type :=
| Returned (c : option closure)
| Awaiting (c : closure).

Definition init_closure (once : bool) (count : option Z) : closure :=
  Closure (if once then Some 1 else count) NotCalled.

(** [run], from the reply to [get_info('events/names')] on; [all_events] is
    the string the daemon reported. *)
Definition run (all_events : string) (list_events once show_event : bool)
    (count : option Z) (events : list string) (w : world)
    : status * world :=
  if list_events then
    (Returned None, World (stdout w ++ split all_events) (listeners w))
  else
    let c := init_closure once count in
    match subscribe all_events show_event events w with
    | (false, w') => (Returned (Some c), w')
    | (true, w') => (Awaiting c, w')
    end.

(** One delivery: the daemon hands [msg] to a registered listener at clock
    reading [ts]. *)
Record delivery : Type := Delivery {
  d_class : string;
  d_listener : listener;
  d_msg : string;
  d_ts : string
}.

(** The listener called is one the protocol holds for that event class. *)
Definition registered (w : world) (d : delivery) : Prop :=
  (d_class d, d_listener d) ∈ listeners w.

(** A run of deliveries; the exception each call raised is collected, as
    the protocol's dispatcher sees it. *)
Fixpoint deliver_all (ds : list delivery) (c : closure) (out : list string)
    : list (option exn) * closure * list string :=
  match ds with
  | [] => ([], c, out)
  | d :: ds' =>
      let '(e, c1, out1) := _got_event (d_listener d) (d_msg d) (d_ts d) c out in
      let '(es, c2, out2) := deliver_all ds' c1 out1 in
      (e :: es, c2, out2)
  end.

End Events.

(** ** carml_circ.py *)
Module Circ.
Import Py Twisted.

(** txtorcon's [Router] and [Circuit], by the attributes the module reads. *)
Record Router : Type := MkRouter {
  name : string;
  id_hex : string
}.

#[global] Instance Router_eq_dec : EqDecision Router.
Proof. solve_decision. Defined.

Record Circuit : Type := MkCircuit {
  id : Z
}.

#[global] Instance Circuit_eq_dec : EqDecision Circuit.
Proof. solve_decision. Defined.

(** The [TorState] that [tor.create_state()] yields: three dicts. *)
Record TorState : Type := MkTorState {
  routers : gmap string Router;
  entry_guards : gmap string Router;
  circuits : gmap Z Circuit
}.

(** [d.values()] of a dict. *)
Definition values {K} `{Countable K} {V} (d : gmap K V) : list V :=
  (map_to_list d).*2.

(** One hop of a path as [find_router] returns it: a [Router], or the name
    itself when it looks like an ID the state does not know. *)
Inductive hop : Type :=
| HopRouter (r : Router)
| HopName (n : string).

(** The keyword arguments of [circuit_closed] and [circuit_failed]. *)
Record kwargs : Type := MkKw {
  reason : option string;
  remote_reason : option string
}.

(** [_BuiltCircuitListener]: its three attributes; [_all_done] is the
    deferred [build_circuit] waits on. *)
Record _BuiltCircuitListener : Type := MkListener {
  circid : Z;
  first : bool;
  _all_done : Deferred
}.

(** The newline [print] ends a line with. *)
Definition nl : string := String "010"%char EmptyString.

Definition str_join (sep : string) (l : list string) : string :=
  match l with
  | [] => EmptyString
  | x :: l' => fold_left (λ acc y, acc +:+ sep +:+ y) l' x
  end.

(** What the module changes outside itself: the fragments written to
    stdout, the [build_circuit] and [close_circuit] requests sent to the
    daemon through the state, the state's circuit listeners, and what went
    to [log.err]. *)
Record world : Type := MkWorld {
  stdout : list string;
  build_requests : list (option (list hop));
  close_requests : list (Z * bool);
  circuit_listeners : list _BuiltCircuitListener;
  log_err : list exn
}.

Definition write (s : string) (w : world) : world :=
  MkWorld (stdout w ++ [s]) (build_requests w) (close_requests w)
          (circuit_listeners w) (log_err w).

Definition print (s : string) (w : world) : world := write (s +:+ nl) w.

Definition send_build (path : option (list hop)) (w : world) : world :=
  MkWorld (stdout w) (build_requests w ++ [path]) (close_requests w)
          (circuit_listeners w) (log_err w).

Definition send_close (circid : Z) (ifunused : bool) (w : world) : world :=
  MkWorld (stdout w) (build_requests w) (close_requests w ++ [(circid, ifunused)])
          (circuit_listeners w) (log_err w).

Definition add_circuit_listener (l : _BuiltCircuitListener) (w : world) : world :=
  MkWorld (stdout w) (build_requests w) (close_requests w)
          (circuit_listeners w ++ [l]) (log_err w).

Definition log_error (e : exn) (w : world) : world :=
  MkWorld (stdout w) (build_requests w) (close_requests w)
          (circuit_listeners w) (log_err w ++ [e]).

Section WithUtil.

(** The colour wrappers and [nice_router_name] of [carml.util] are
    parameters: what they return only ever goes into printed text.
    [nice_router_name] reads the attributes of a [Router]; it is a function
    of routers, and a call of it on a plain string raises
    [AttributeError] (see [map_nice_router_name]). *)
Variables green red : string → string.
Variable nice_router_name : Router → string.

(** *** The listener's four methods

    Each returns the exception it raised (if any), the listener and the
    fragments written to stdout. *)
Definition circuit_extend (self : _BuiltCircuitListener) (circuit : Circuit)
    (router : Router) (out : list string)
    : option exn * _BuiltCircuitListener * list string :=
  if decide (id circuit = circid self) then
    if first self then
      (None, MkListener (circid self) false (_all_done self), out ++ [name router])
    else
      (None, self, out ++ [" -> "; name router])
  else (None, self, out).

Definition circuit_built (self : _BuiltCircuitListener) (circuit : Circuit)
    (out : list string) : option exn * _BuiltCircuitListener * list string :=
  if decide (id circuit = circid self) then
    let out1 := out ++ [": " +:+ green "built." +:+ nl] in
    let '(e, d) := callback (_all_done self) in
    (e, MkListener (circid self) (first self) d, out1)
  else (None, self, out).

Definition circuit_closed (self : _BuiltCircuitListener) (circuit : Circuit)
    (kw : kwargs) (out : list string)
    : option exn * _BuiltCircuitListener * list string :=
  if decide (id circuit = circid self) then
    let out1 := out ++ [": " +:+ red "closed." +:+ nl] in
    let '(e, d) := callback (_all_done self) in
    (e, MkListener (circid self) (first self) d, out1)
  else (None, self, out).

Definition circuit_failed (self : _BuiltCircuitListener) (circuit : Circuit)
    (kw : kwargs) (out : list string)
    : option exn * _BuiltCircuitListener * list string :=
  if decide (id circuit = circid self) then
    let r := default EmptyString (reason kw) in
    let rr := default EmptyString (remote_reason kw) in
    let msg := red "failed" +:+ " (" +:+ r +:+ ", " +:+ rr +:+ ")." in
    let '(e, d) := errback (RuntimeError msg) (_all_done self) in
    (e, MkListener (circid self) (first self) d, out)
  else (None, self, out).

(** The notifications the state sends to a circuit listener. *)
Inductive notification : Type :=
| Extend (circuit : Circuit) (router : Router)
| Built (circuit : Circuit)
| Closed (circuit : Circuit) (kw : kwargs)
| Failed (circuit : Circuit) (kw : kwargs).

Definition notification_id (n : notification) : Z :=
  match n with
  | Extend c _ | Built c | Closed c _ | Failed c _ => id c
  end.

Definition notify (n : notification) (self : _BuiltCircuitListener)
    (out : list string) : option exn * _BuiltCircuitListener * list string :=
  match n with
  | Extend c r => circuit_extend self c r out
  | Built c => circuit_built self c out
  | Closed c kw => circuit_closed self c kw out
  | Failed c kw => circuit_failed self c kw out
  end.

(** A run of notifications; the exception each call raised is collected. *)
Fixpoint notify_all (ns : list notification) (self : _BuiltCircuitListener)
    (out : list string)
    : list (option exn) * _BuiltCircuitListener * list string :=
  match ns with
  | [] => ([], self, out)
  | n :: ns' =>
      let '(e, self1, out1) := notify n self out in
      let '(es, self2, out2) := notify_all ns' self1 out1 in
      (e :: es, self2, out2)
  end.

(** *** [build_circuit] *)

(** [find_router((position, name))], the function [build_circuit] maps over
    [enumerate(routers)]; [draw] is the random number its [random.choice]
    uses. *)
Definition find_router (state : TorState) (draw : nat) (args : nat * string)
    (out : list string) : (exn + hop) * list string :=
  let '(position, name) := args in
  if decide (name = "*") then
    if decide (position = 0%nat) then
      (sum_map (λ e, e) HopRouter (choice draw (values (entry_guards state))), out)
    else
      (sum_map (λ e, e) HopRouter (choice draw (values (routers state))), out)
  else
    let r :=
      match routers state !! name with
      | Some r => Some r
      | None => routers state !! ("$" +:+ name)
      end in
    match r with
    | Some r => (inr (HopRouter r), out)
    | None =>
        if decide (len name = 40%nat) then
          (inr (HopName name),
           out ++ ["Couldn't look up " +:+ name +:+ ", but it looks like an ID" +:+ nl])
        else
          (inl (RuntimeError ("Couldn't find router " +:+ dq +:+ name +:+ dq +:+ ".")),
           out)
    end.

(** [map(find_router, enumerate(routers))], a list in Python 2: the calls
    are made left to right and the first exception ends them.  [draws p] is
    the random number of the call at position [p]. *)
Fixpoint map_find_router (state : TorState) (draws : nat → nat)
    (position : nat) (names : list string) (out : list string)
    : (exn + list hop) * list string :=
  match names with
  | [] => (inr [], out)
  | n :: names' =>
      match find_router state (draws position) (position, n) out with
      | (inl e, out1) => (inl e, out1)
      | (inr h, out1) =>
          match map_find_router state draws (S position) names' out1 with
          | (inl e, out2) => (inl e, out2)
          | (inr hs, out2) => (inr (h :: hs), out2)
          end
      end
  end.

Definition set_stdout (out : list string) (w : world) : world :=
  MkWorld out (build_requests w) (close_requests w)
          (circuit_listeners w) (log_err w).

(** Where [build_circuit] stands between two resumptions. *)
Inductive build_status : Type :=
| Raised (e : exn)
| AwaitBuildReply
| AwaitAllDone (circid : Z).

(** [map(util.nice_router_name, routers)] on the hops of a path, a list in
    Python 2: the calls are made left to right, and the first hop that is a
    plain string, not a [Router], ends them with [AttributeError]. *)
Fixpoint map_nice_router_name (hs : list hop) : exn + list string :=
  match hs with
  | [] => inr []
  | HopRouter r :: hs' =>
      match map_nice_router_name hs' with
      | inl e => inl e
      | inr ns => inr (nice_router_name r :: ns)
      end
  | HopName _ :: _ => inl AttributeError
  end.

(** [build_circuit] from the reply of [tor.create_state()] up to
    [yield state.build_circuit(routers)]. *)
Definition build_circuit (state : TorState) (draws : nat → nat)
    (routers : list string) (w : world) : build_status * world :=
  let is_auto :=
    bool_decide (length routers = 1%nat) &&
    bool_decide (lower <$> routers !! 0%nat = Some "auto") in
  let path :=
    if is_auto then (inr None, stdout w)
    else
      match map_find_router state draws 0 routers (stdout w) with
      | (inl e, out) => (inl e, out)
      | (inr hs, out) =>
          match map_nice_router_name hs with
          | inl e => (inl e, out)
          | inr ns =>
              (inr (Some hs),
               out ++ ["Building circuit: " +:+ str_join "->" ns +:+ nl])
          end
      end in
  match path with
  | (inl e, out) => (Raised e, set_stdout out w)
  | (inr p, out) => (AwaitBuildReply, send_build p (set_stdout out w))
  end.

(** [build_circuit] resumed with the daemon's reply to the build request, up
    to [yield all_done].  A [TorProtocolError] is logged, and [all_done] is
    then read before any assignment to it. *)
Definition build_circuit_reply (reply : exn + Circuit) (w : world)
    : build_status * world :=
  match reply with
  | inr circ =>
      let all_done := NotCalled in
      let w1 := write ("Circuit ID " +:+ pretty (id circ) +:+ ": ") w in
      (AwaitAllDone (id circ),
       add_circuit_listener (MkListener (id circ) true all_done) w1)
  | inl (TorProtocolError m) =>
      (Raised (UnboundLocalError "all_done"), log_error (TorProtocolError m) w)
  | inl e => (Raised e, w)
  end.

(** What the operation's own deferred holds once [all_done] has fired. *)
Definition build_outcome (d : Deferred) : option (exn + unit) :=
  match d with
  | NotCalled => None
  | Called r => Some r
  end.

End WithUtil.

(** *** [delete_circuit] and the deletions of [run] *)

(** Where one [delete_circuit] generator stands: at one of its three
    [yield]s, or finished, its deferred holding the result. *)
Inductive delete_status : Type :=
| AwaitState
| AwaitCloseAck (circ : Circuit)
| AwaitClosed (circ : Circuit)
| Settled (r : exn + unit).

(** What a [yield] is resumed with: the result of the deferred it waits on. *)
Inductive reply : Type :=
| StateReply (r : exn + TorState)
| CloseReply (r : exn + string)
| ClosedReply (r : exn + unit).

(** One call of [delete_circuit]. *)
Record deletion : Type := MkDeletion {
  d_circid : Z;
  d_ifunused : bool;
  d_status : delete_status
}.

(** [delete_circuit(reactor, cfg, tor, circid, ifunused)] up to
    [yield tor.create_state()]. *)
Definition delete_circuit (circid : Z) (ifunused : bool) (w : world)
    : deletion * world :=
  let unused_string := if ifunused then "(if unused) " else EmptyString in
  (MkDeletion circid ifunused AwaitState,
   print ("Deleting circuit " +:+ unused_string +:+ dq +:+ pretty circid
          +:+ dq +:+ "...") w).

(** The generator resumed with the result of the deferred it waits on; a
    result of another deferred does not reach it. *)
Definition resume (d : deletion) (r : reply) (w : world) : deletion * world :=
  let settle s := MkDeletion (d_circid d) (d_ifunused d) s in
  match d_status d, r with
  | AwaitState, StateReply (inl e) => (settle (Settled (inl e)), w)
  | AwaitState, StateReply (inr state) =>
      match circuits state !! d_circid d with
      | None =>
          (settle (Settled (inl (RuntimeError
             ("No such circuit '" +:+ pretty (d_circid d) +:+ "'")))), w)
      | Some circ =>
          (settle (AwaitCloseAck circ), send_close (d_circid d) (d_ifunused d) w)
      end
  | AwaitCloseAck circ, CloseReply (inl e) => (settle (Settled (inl e)), w)
  | AwaitCloseAck circ, CloseReply (inr status) =>
      (settle (AwaitClosed circ), print (status +:+ " (waiting for CLOSED)...") w)
  | AwaitClosed circ, ClosedReply r => (settle (Settled r), w)
  | _, _ => (d, w)
  end.

(** The [for d in delete] loop of [run]: one generator per circuit id, each
    started in turn. *)
Fixpoint start_deletes (delete : list Z) (if_unused : bool) (w : world)
    : list deletion * world :=
  match delete with
  | [] => ([], w)
  | d :: rest =>
      let '(g, w1) := delete_circuit d if_unused w in
      let '(gs, w2) := start_deletes rest if_unused w1 in
      (g :: gs, w2)
  end.

(** [defer.DeferredList(deletes)] with its default flags: it fires once
    every deferred of the list has a result, with the list of
    [(success, result)] pairs in the order of [deletes]. *)
Fixpoint DeferredList (deletes : list deletion)
    : option (list (bool * (exn + unit))) :=
  match deletes with
  | [] => Some []
  | d :: rest =>
      match d_status d, DeferredList rest with
      | Settled (inr v), Some rs => Some ((true, inr v) :: rs)
      | Settled (inl e), Some rs => Some ((false, inl e) :: rs)
      | _, _ => None
      end
  end.

(** [for ok, value in results: if not ok: raise value]. *)
Fixpoint raise_first (results : list (bool * (exn + unit))) : exn + unit :=
  match results with
  | [] => inr tt
  | (ok, value) :: rest =>
      if negb ok then
        match value with
        | inl e => inl e
        | inr _ => inl TypeError
        end
      else raise_first rest
  end.

(** The result of [run]'s own deferred in the deletion branch: none while
    [yield defer.DeferredList(deletes)] is pending. *)
Definition run_deletes (deletes : list deletion) : option (exn + unit) :=
  raise_first <$> DeferredList deletes.

(** The reactor hands a result to the [k]-th generator. *)
Definition deliver (k : nat) (r : reply) (deletes : list deletion) (w : world)
    : list deletion * world :=
  match deletes !! k with
  | Some d => let '(d', w') := resume d r w in (<[k := d']> deletes, w')
  | None => (deletes, w)
  end.

Fixpoint deliver_all (rs : list (nat * reply)) (deletes : list deletion)
    (w : world) : list deletion * world :=
  match rs with
  | [] => (deletes, w)
  | (k, r) :: rs' =>
      let '(ds, w1) := deliver k r deletes w in
      deliver_all rs' ds w1
  end.

(** The results of a schedule that are for the [j]-th generator, in order. *)
Definition addressed_to (j : nat) (rs : list (nat * reply)) : list reply :=
  omap (λ kr, if decide (kr.1 = j) then Some kr.2 else None) rs.

(** *** [run] *)

(** Truth value of a flag that is [None] until given. *)
Definition flag_set (f : option bool) : bool :=
  match f with Some true => true | _ => false end.

(** Truth value of an optional string: [None] and the empty string are
    false. *)
Definition given (o : option string) : bool :=
  match o with Some s => truthy s | None => false end.

(** Where [run] stands at its first suspension: in [list_circuits] waiting
    for the state, on the [DeferredList] of its deletions, in
    [build_circuit] waiting for the state with the tokens of the path, or
    returned, no branch taken. *)
Inductive run_status : Type :=
| Listing (verbose : bool)
| Deleting (deletes : list deletion)
| Building (routers : list string)
| Finished.

(** [run(reactor, cfg, tor, if_unused, verbose, list, build, delete)] up to
    its first suspension. *)
Definition run (if_unused verbose : bool) (list : option bool)
    (build : option string) (delete : Datatypes.list Z) (w : world)
    : run_status * world :=
  if flag_set list then (Listing verbose, print "Circuits:" w)
  else if bool_decide (0 < length delete)%nat then
    let '(deletes, w1) := start_deletes delete if_unused w in
    (Deleting deletes, w1)
  else if given build then
    (Building (split_on ","%char (default EmptyString build)), w)
  else (Finished, w).

#[global] Instance delete_status_eq_dec : EqDecision delete_status.
Proof. solve_decision. Defined.

(** *** What stands on stdout *)

(** The characters written, fragment after fragment. *)
Definition text (out : list string) : string :=
  foldr String.app EmptyString out.

(** The router names that the [extend] notifications for circuit [i] carry,
    in the order of the notifications. *)
Definition own_hops (i : Z) (ns : list (notification)) : list string :=
  omap (λ n, match n with
             | Extend c r => if decide (id c = i) then Some (name r) else None
             | _ => None
             end) ns.

End Circ.

(** ** carml_relay.py: waiting for a router *)
Module Relay.
Import Py Twisted.

Abbreviation Router := Circ.Router.

(** A [_newconsensus] closure is known by the number of the [_when_updated]
    call that made it; [deferreds] holds the [d] of each call.  [listeners]
    is the protocol's table for NEWCONSENSUS. *)
Record world : Type := MkWorld {
  stdout : list string;
  listeners : list nat;
  deferreds : list Deferred
}.

(** Where [router_await] stands: it returned without a router, it holds the
    router [r] (and goes on to [_print_router_info(r)]), or [_await_router]
    is suspended on the deferred of the [k]-th [_when_updated] call. *)
Inductive await_status : Type :=
| NotHex
| Found (r : Router)
| Suspended (router_id : string) (k : nat).

(** [_when_updated(state)]: a fresh deferred and a listener that fires it. *)
Definition _when_updated (w : world) : nat * world :=
  let k := length (deferreds w) in
  (k, MkWorld (stdout w) (listeners w ++ [k]) (deferreds w ++ [NotCalled])).

(** The body of [_await_router]'s loop after [yield _when_updated(state)]:
    the lookup in the live [state.routers], and the next turn on
    [KeyError]. *)
Definition _await_router_resume (routers : gmap string Router)
    (router_id : string) (w : world) : await_status * world :=
  match routers !! router_id with
  | Some r => (Found r, w)
  | None => let '(k, w1) := _when_updated w in (Suspended router_id k, w1)
  end.

(** [_await_router(state, router_id)] up to its first [yield]. *)
Definition _await_router (router_id : string) (w : world)
    : await_status * world :=
  let '(k, w1) := _when_updated w in (Suspended router_id k, w1).

(** [arg] after the first [if] of [router_await]: forty characters without
    the sigil get it. *)
Definition hex_id (arg : string) : string :=
  if bool_decide (len arg = 40%nat) && negb (startswith arg "$")
  then "$" +:+ arg else arg.

(** [router_await(state, arg)] up to the point where [r] is bound. *)
Definition router_await (routers : gmap string Router) (arg : string)
    (w : world) : await_status * world :=
  let arg := hex_id arg in
  if negb (startswith arg "$") && bool_decide (len arg = 41%nat) then
    (NotHex,
     MkWorld (stdout w ++ ["Doesn't appear to be a hex router ID"])
             (listeners w) (deferreds w))
  else
    match routers !! arg with
    | Some r =>
        (Found r,
         MkWorld (stdout w ++ ["Router already present:"])
                 (listeners w) (deferreds w))
    | None => _await_router arg w
    end.

(** [remove_event_listener('NEWCONSENSUS', cb)]. *)
Definition remove_listener (k : nat) (l : list nat) : list nat :=
  filter (λ j, j ≠ k) l.

(** The closure [_newconsensus] of the [k]-th [_when_updated] call, run at
    clock reading [now] when the state holds [routers]: it prints, fires
    [d] (which resumes the generator suspended on it) and removes itself.
    An exception of [d.callback] leaves the function at once. *)
Definition _newconsensus (k : nat) (routers : gmap string Router)
    (now : string) (st : await_status) (w : world)
    : option exn * await_status * world :=
  let out := stdout w ++ ["Got NEWCONSENSUS at " +:+ now] in
  match deferreds w !! k with
  | Some d =>
      match callback d with
      | (Some e, _) => (Some e, st, MkWorld out (listeners w) (deferreds w))
      | (None, d') =>
          let w1 := MkWorld out (listeners w) (<[k := d']> (deferreds w)) in
          let '(st2, w2) :=
            match st with
            | Suspended router_id j =>
                if decide (j = k) then _await_router_resume routers router_id w1
                else (st, w1)
            | _ => (st, w1)
            end in
          (None, st2,
           MkWorld (stdout w2) (remove_listener k (listeners w2)) (deferreds w2))
      end
  | None => (None, st, w)
  end.

(** One refresh of the state: the routers it now holds and the clock. *)
Record refresh : Type := MkRefresh {
  r_routers : gmap string Router;
  r_now : string
}.

(** A NEWCONSENSUS event: the protocol calls the listeners that were
    registered when the event came in. *)
Fixpoint call_listeners (ks : list nat) (rf : refresh) (st : await_status)
    (w : world) : list (option exn) * await_status * world :=
  match ks with
  | [] => ([], st, w)
  | k :: ks' =>
      let '(e, st1, w1) := _newconsensus k (r_routers rf) (r_now rf) st w in
      let '(es, st2, w2) := call_listeners ks' rf st1 w1 in
      (e :: es, st2, w2)
  end.

Definition on_refresh (rf : refresh) (st : await_status) (w : world)
    : list (option exn) * await_status * world :=
  call_listeners (listeners w) rf st w.

(** A run of refreshes: the status after each of them, the exceptions
    raised, and the final world. *)
Fixpoint refreshes (rfs : list refresh) (st : await_status) (w : world)
    : list await_status * list (option exn) * world :=
  match rfs with
  | [] => ([], [], w)
  | rf :: rfs' =>
      let '(es, st1, w1) := on_refresh rf st w in
      let '(sts, es', w2) := refreshes rfs' st1 w1 in
      (st1 :: sts, es ++ es', w2)
  end.

(** What [router_info] does, in order: a line printed, or a call of
    [_print_router_info(router, agent)], [agent] telling whether the
    onionoo agent is passed. *)
Inductive info_effect : Type :=
| Line (s : string)
| PrintRouterInfo (router : Router) (agent : bool).

(** [router_info(state, arg, tor)]: the router under the key [arg], or
    else every router of [state.all_routers] whose name or hex id has
    [arg] in it. *)
Definition router_info (routers : gmap string Router)
    (all_routers : list Router) (arg : string) : list info_effect :=
  let arg := hex_id arg in
  match routers !! arg with
  | Some relay => [PrintRouterInfo relay true]
  | None =>
      let candidates :=
        filter (λ r, str_in arg (Circ.name r) || str_in arg (Circ.id_hex r) = true)
          all_routers in
      (if bool_decide (candidates = []) then
         [Line ("Nothing found (" +:+ pretty (length all_routers) +:+
                " routers total)")]
       else []) ++
      (if bool_decide (1 < length candidates)%nat then
         [Line "Found multiple routers:"]
       else []) ++
      flat_map (λ router, [PrintRouterInfo router false; Line EmptyString])
        candidates
  end.

(** [router_list(state)]: one line per router of [state.all_routers], the
    hex id without its first character. *)
Definition router_list (all_routers : list Router) (w : world) : world :=
  MkWorld (stdout w ++ ((λ r, drop_first (Circ.id_hex r)) <$> all_routers))
          (listeners w) (deferreds w).

End Relay.

(** ** cli.py: the checks ahead of the [circ] and [events] commands *)
Module Cli.
Import Py.

(** A command either raises [click.UsageError] or hands its arguments to
    the module's [run]. *)
Inductive outcome (A : Type) : Type :=
| UsageError (msg : string)
| Ran (a : A).
Arguments UsageError {A} msg.
Arguments Ran {A} a.

(** [circ(cfg, if_unused, verbose, list, build, delete)]. *)
Definition circ (if_unused verbose : bool) (list : option bool)
    (build : option string) (delete : Datatypes.list Z) (w : Circ.world)
    : outcome (Circ.run_status * Circ.world) :=
  let chosen :=
    filter (λ o : bool, o = true)
      [Circ.flag_set list; Circ.given build;
       bool_decide (delete ≠ [])] in
  if negb (bool_decide (length chosen = 1%nat)) then
    UsageError "Specify just one of --list, --build or --delete"
  else Ran (Circ.run if_unused verbose list build delete w).

(** [events(cfg, list, once, show_event, count, events)]; [all_events] is
    what the daemon answers to [run]'s first question. *)
Definition events (all_events : string) (list once show_event : bool)
    (count : option Z) (events : Datatypes.list string) (w : Events.world)
    : outcome (Events.status * Events.world) :=
  if bool_decide (length events < 1)%nat && negb list then
    UsageError "Must specify at least one event"
  else Ran (Events.run all_events list once show_event count events w).

End Cli.

(** * Properties *)

(** ** Strings *)
Section Strings.
Import Py.

Lemma app_cons (a : ascii) (s t : string) :
  String a s +:+ t = String a (s +:+ t).
Proof. reflexivity. Qed.

Lemma app_nil (s : string) : EmptyString +:+ s = s.
Proof. reflexivity. Qed.

Lemma prefix_app (p s : string) :
  String.prefix p s = true ↔ ∃ post, s = p +:+ post.
Proof.
  revert s; induction p as [|a p IH]; intros s.
  - split; [intros _; exists s; reflexivity | by destruct s].
  - destruct s as [|b s]; simpl.
    + split; [done | intros [post Hp]; discriminate].
    + setoid_rewrite app_cons.
      destruct (Ascii.ascii_dec a b) as [->|Hab].
      * rewrite IH. split; intros [post Hp]; exists post; congruence.
      * split; [done | intros [post Hp]; congruence].
Qed.

(** [str_in] is the containment test of Python's [in] on two strings. *)
Lemma str_in_spec (needle hay : string) :
  str_in needle hay = true ↔ ∃ pre post, hay = pre +:+ needle +:+ post.
Proof.
  induction hay as [|c hay IH]; cbn [str_in].
  - rewrite orb_false_r, prefix_app. split.
    + intros [post Hp]. by exists EmptyString, post.
    + intros [[|a pre] [post Hp]]; [by exists post | discriminate].
  - rewrite orb_true_iff, prefix_app, IH. split.
    + intros [[post Hp] | (pre & post & ->)].
      * by exists EmptyString, post.
      * by exists (String c pre), post.
    + intros [[|a pre] [post Hp]].
      * left. by exists post.
      * right. rewrite app_cons in Hp. exists pre, post. congruence.
Qed.

Lemma str_in_empty (hay : string) : str_in EmptyString hay = true.
Proof. apply str_in_spec. by exists EmptyString, hay. Qed.

Example upper_circ : upper "circ Bw_9" = "CIRC BW_9".
Proof. reflexivity. Qed.

Example lower_auto : lower "AuTo" = "auto".
Proof. reflexivity. Qed.

Example split_names :
  split "CIRC STREAM  ORCONN" = ["CIRC"; "STREAM"; "ORCONN"].
Proof. reflexivity. Qed.

Example str_in_fragment :
  str_in "IRC" "CIRC STREAM" = true ∧ str_in "CIRCS" "CIRC STREAM" = false.
Proof. split; reflexivity. Qed.

Example str_join_arrows : Circ.str_join "->" ["a"; "b"; "c"] = "a->b->c".
Proof. reflexivity. Qed.

Example choice_wraps : choice 7 ["a"; "b"; "c"] = inr "b".
Proof. reflexivity. Qed.

End Strings.

(** ** Event subscription *)
Section EventsProps.
Import Py Twisted Events.

(** The names ahead of the first invalid one are registered one by one, in
    order. *)
Lemma subscribe_valid_prefix all_events show_event pre rest w :
  Forall (λ x, str_in (upper x) all_events = true) pre →
  subscribe all_events show_event (pre ++ rest) w =
  subscribe all_events show_event rest
    (World (stdout w)
       (listeners w ++
        ((λ x, (upper x, make_listener show_event (upper x))) <$> pre))).
Proof.
  intros Hpre. revert w.
  induction Hpre as [|x pre Hx _ IH]; intros w.
  - simpl. rewrite app_nil_r. by destruct w.
  - cbn [app subscribe]. rewrite Hx. cbn [negb].
    rewrite IH. unfold add_event_listener. cbn [stdout listeners fmap list_fmap].
    by rewrite <- app_assoc.
Qed.

Lemma got_event_exhausted evt msg ts n d out :
  n ≤ 0 →
  _got_event evt msg ts (Closure (Some n) d) out =
  (Some (UnboundLocalError "all_done"), Closure (Some (n - 1)) d, out).
Proof.
  intros Hn. unfold _got_event. cbn [counter all_done].
  destruct (Z.leb_spec 0 (n - 1)); [lia | done].
Qed.

Lemma got_event_counting evt msg ts n d out :
  0 < n →
  _got_event evt msg ts (Closure (Some n) d) out =
  (None, Closure (Some (n - 1)) d, out ++ [msg]).
Proof.
  intros Hn. unfold _got_event. cbn [counter all_done].
  destruct (Z.leb_spec 0 (n - 1)); [done | lia].
Qed.

(** Once the counter is at zero or below, every delivery raises
    [UnboundLocalError], prints nothing and leaves [all_done] alone. *)
Lemma deliver_all_exhausted ds n d out :
  n ≤ 0 →
  deliver_all ds (Closure (Some n) d) out =
  (replicate (length ds) (Some (UnboundLocalError "all_done")),
   Closure (Some (n - Z.of_nat (length ds))) d, out).
Proof.
  revert n out. induction ds as [|x ds IH]; intros n out Hn.
  - simpl. by rewrite Z.sub_0_r.
  - cbn [deliver_all]. rewrite got_event_exhausted by done.
    rewrite IH by lia. cbn [length replicate].
    by replace (n - 1 - Z.of_nat (length ds))
      with (n - Z.of_nat (S (length ds))) by lia.
Qed.

(** A counter at [m]: the first [m] deliveries are printed, the later ones
    raise. *)
Lemma deliver_all_counted ds (m : nat) d out :
  deliver_all ds (Closure (Some (Z.of_nat m)) d) out =
  (replicate (m `min` length ds) None ++
   replicate (length ds - m) (Some (UnboundLocalError "all_done")),
   Closure (Some (Z.of_nat m - Z.of_nat (length ds))) d,
   out ++ (d_msg <$> take m ds)).
Proof.
  revert m out. induction ds as [|x ds IH]; intros m out.
  - cbn [deliver_all length]. rewrite Nat.min_0_r, take_nil.
    cbn [replicate Nat.sub fmap list_fmap app].
    by rewrite app_nil_r, Z.sub_0_r.
  - destruct m as [|m].
    + rewrite deliver_all_exhausted by done. cbn [take fmap list_fmap].
      by rewrite app_nil_r.
    + cbn [deliver_all]. rewrite got_event_counting by lia.
      replace (Z.of_nat (S m) - 1) with (Z.of_nat m) by lia.
      rewrite IH. cbn [length take fmap list_fmap Nat.min replicate Nat.sub app].
      rewrite <- app_assoc.
      by replace (Z.of_nat m - Z.of_nat (length ds))
        with (Z.of_nat (S m) - Z.of_nat (S (length ds))) by lia.
Qed.

(** Without a counter every delivery is printed, and nothing else happens. *)
Lemma deliver_all_unbounded ds d out :
  deliver_all ds (Closure None d) out =
  (replicate (length ds) None, Closure None d,
   out ++ ((λ x,
      match d_listener x with
      | Some e => if truthy e then e +:+ ": " +:+ d_msg x
                  else d_ts x +:+ " " +:+ d_msg x
      | None => d_ts x +:+ " " +:+ d_msg x
      end) <$> ds)).
Proof.
  revert out. induction ds as [|x ds IH]; intros out.
  - simpl. by rewrite app_nil_r.
  - cbn [deliver_all]. unfold _got_event at 1. cbn [counter].
    destruct (d_listener x) as [e|] eqn:He; [destruct (truthy e) eqn:Ht|];
      rewrite IH; cbn [length replicate fmap list_fmap]; rewrite He, ?Ht;
      by rewrite <- app_assoc.
Qed.

(** The loop only ever adds to the listener table. *)
Lemma subscribe_appends all_events show_event events w :
  ∃ more,
    listeners (subscribe all_events show_event events w).2 = listeners w ++ more.
Proof.
  revert w. induction events as [|e events IH]; intros w.
  - exists []. by rewrite app_nil_r.
  - cbn [subscribe]. destruct (str_in (upper e) all_events); cbn [negb].
    + destruct (IH (add_event_listener (upper e)
                      (make_listener show_event (upper e)) w)) as [more ->].
      cbn [add_event_listener listeners]. rewrite <- app_assoc. by eexists.
    + exists []. by rewrite app_nil_r.
Qed.

(** When the loop runs to its end, every name was valid and registered. *)
Lemma subscribe_completed all_events show_event events w w' :
  subscribe all_events show_event events w = (true, w') →
  stdout w' = stdout w ∧
  listeners w' =
    listeners w ++
    ((λ x, (upper x, make_listener show_event (upper x))) <$> events).
Proof.
  revert w. induction events as [|e events IH]; intros w.
  - intros [= <-]. by rewrite app_nil_r.
  - cbn [subscribe]. destruct (str_in (upper e) all_events); cbn [negb]; [|done].
    intros [-> ->]%IH. cbn [add_event_listener stdout listeners fmap list_fmap].
    by rewrite <- app_assoc.
Qed.

(** A list of names either passes the check throughout or has a first name
    that fails it. *)
Lemma first_invalid_name all_events (names : list string) :
  Forall (λ x, str_in (upper x) all_events = true) names ∨
  ∃ a b c, names = a ++ b :: c ∧
    Forall (λ x, str_in (upper x) all_events = true) a ∧
    str_in (upper b) all_events = false.
Proof.
  induction names as [|x names IH]; [left; constructor|].
  destruct (str_in (upper x) all_events) eqn:Hx.
  - destruct IH as [IH|(a & b & c & -> & Ha & Hb)].
    + left. by constructor.
    + right. exists (x :: a), b, c. split; [done|]. split; [by constructor|done].
  - right. exists [], x, names. split; [done|]. split; [constructor|done].
Qed.

(** C10. Validation is the containment test of the upper-cased name in the
    string of supported names, and nothing else.  Requested alone, a name
    is registered (and [run] waits) exactly when its upper-cased form
    occurs as a contiguous run of characters of that string, whether or not
    it is one of the space-separated names; and it is turned away with
    [Invalid event], nothing registered, exactly when it does not.  In a
    list, a name is registered exactly when it and every name ahead of it
    pass this test. *)
Theorem substring_name_is_registered
    (all_events : string) (once show_event : bool) (count : option Z)
    (pre : list string) (e : string) (post : list string) (w : world) :
  ((∃ l r, all_events = l +:+ upper e +:+ r) ↔
   run all_events false once show_event count [e] w =
   (Awaiting (init_closure once count),
    World (stdout w)
      (listeners w ++ [(upper e, make_listener show_event (upper e))]))) ∧
  ((¬ ∃ l r, all_events = l +:+ upper e +:+ r) ↔
   run all_events false once show_event count [e] w =
   (Returned (Some (init_closure once count)),
    World (stdout w ++ ["Invalid event: " +:+ upper e]) (listeners w))) ∧
  (Forall (λ x, ∃ l r, all_events = l +:+ upper x +:+ r) (pre ++ [e]) ↔
   ∃ more,
     listeners
       (run all_events false once show_event count (pre ++ e :: post) w).2 =
     listeners w ++
     ((λ x, (upper x, make_listener show_event (upper x))) <$> pre) ++
     (upper e, make_listener show_event (upper e)) :: more).
Proof.
  split; [|split].
  - rewrite <- str_in_spec. unfold run. cbn [subscribe].
    destruct (str_in (upper e) all_events); cbn [negb]; by split.
  - rewrite <- str_in_spec. unfold run. cbn [subscribe].
    destruct (str_in (upper e) all_events); cbn [negb]; by split.
  - split.
    + intros Hall.
      assert (Forall (λ x, str_in (upper x) all_events = true) (pre ++ [e]))
        as Hall'.
      { eapply Forall_impl; [exact Hall|]. intros x Hx. by apply str_in_spec. }
      apply Forall_app in Hall' as [Hpre He].
      apply Forall_cons in He as [He _].
      unfold run. rewrite (subscribe_valid_prefix _ _ _ _ _ Hpre).
      cbn [subscribe]. rewrite He. cbn [negb].
      match goal with |- context [subscribe ?a ?b post ?w0] =>
        destruct (subscribe_appends a b post w0) as [more Hmore];
        destruct (subscribe a b post w0) as [[] w1] end;
        cbn [snd] in *; rewrite Hmore; cbn [add_event_listener listeners];
        exists more; by rewrite <- !app_assoc.
    + intros [more Hmore].
      destruct (first_invalid_name all_events (pre ++ [e]))
        as [Hall|(a & b & c & Hsplit & Ha & Hb)].
      * eapply Forall_impl; [exact Hall|]. intros x Hx. by apply str_in_spec.
      * exfalso.
        assert (pre ++ e :: post = a ++ b :: (c ++ post)) as Hnames.
        { change (e :: post) with ([e] ++ post).
          by rewrite app_assoc, Hsplit, <- app_assoc. }
        rewrite Hnames in Hmore. unfold run in Hmore.
        rewrite (subscribe_valid_prefix _ _ _ _ _ Ha) in Hmore.
        cbn [subscribe] in Hmore. rewrite Hb in Hmore.
        cbn [negb snd print listeners] in Hmore.
        apply (f_equal length) in Hmore, Hsplit.
        rewrite !length_app, !length_fmap in Hmore.
        rewrite !length_app in Hsplit. cbn [length] in *. lia.
Qed.

(** A fragment of a supported name is accepted, though it is none of the
    names the daemon listed. *)
Lemma substring_name_is_registered_witness :
  ("IRC" ∉ split "CIRC STREAM ORCONN BW") ∧
  run "CIRC STREAM ORCONN BW" false false false None ["irc"] (World [] []) =
  (Awaiting (init_closure false None),
   World (stdout (World [] []))
     (listeners (World [] []) ++
      [(upper "irc", make_listener false (upper "irc"))])).
Proof.
  split.
  - vm_compute. intros H. repeat (inversion H as [|? ? ? H']; clear H; subst;
      try rename H' into H).
  - apply (substring_name_is_registered
             "CIRC STREAM ORCONN BW" false false None [] "irc" []
             (World [] [])).
    by exists "C", " STREAM ORCONN BW".
Defined.

(** C2, as the code has it. The names are taken in order and each is
    checked just before it is registered: at the first name that fails the
    check the operation prints [Invalid event: NAME] and returns normally;
    the names before it are registered and stay so, that name and the later
    ones are not. *)
Theorem subscription_stops_at_first_invalid_name
    all_events once show_event count pre e post w :
  Forall (λ x, str_in (upper x) all_events = true) pre →
  str_in (upper e) all_events = false →
  run all_events false once show_event count (pre ++ e :: post) w =
  (Returned (Some (init_closure once count)),
   World (stdout w ++ ["Invalid event: " +:+ upper e])
     (listeners w ++
      ((λ x, (upper x, make_listener show_event (upper x))) <$> pre))).
Proof.
  intros Hpre He. unfold run.
  rewrite (subscribe_valid_prefix _ _ _ _ _ Hpre).
  cbn [subscribe]. by rewrite He.
Qed.

Lemma subscription_stops_at_first_invalid_name_witness :
  run "CIRC STREAM" false false true (Some 3)
    (["circ"; "stream"] ++ "bogus" :: ["circ"]) (World [] []) =
  (Returned (Some (init_closure false (Some 3))),
   World ([] ++ ["Invalid event: " +:+ upper "bogus"])
     ([] ++
      ((λ x, (upper x, make_listener true (upper x))) <$> ["circ"; "stream"]))).
Proof.
  apply (subscription_stops_at_first_invalid_name
           "CIRC STREAM" false true (Some 3) ["circ"; "stream"] "bogus"
           ["circ"] (World [] [])).
  - repeat constructor.
  - reflexivity.
Defined.

(** The claim of C2 fails on [["circ"; "bogus"]]: the second name is not
    supported, yet the listener for the first one is registered and the
    operation returns without an error. *)
Lemma partial_registration_counterexample :
  str_in (upper "bogus") "CIRC STREAM" = false ∧
  run "CIRC STREAM" false false false None ["circ"; "bogus"] (World [] []) =
  (Returned (Some (Closure None NotCalled)),
   World ["Invalid event: BOGUS"] [("CIRC", None)]).
Proof. split; reflexivity. Qed.

(** C4, on the code. With a count of three the first three deliveries are
    printed; every later one raises [UnboundLocalError] in the listener,
    prints nothing, and [all_done] is never fired. *)
Theorem counted_subscription_never_resolves (ds : list delivery) :
  deliver_all ds (init_closure false (Some 3)) [] =
  (replicate (3 `min` length ds) None ++
   replicate (length ds - 3) (Some (UnboundLocalError "all_done")),
   Closure (Some (3 - Z.of_nat (length ds))) NotCalled,
   d_msg <$> take 3 ds).
Proof. exact (deliver_all_counted ds 3 NotCalled []). Qed.

(** C7, as the code has it. Without a count every delivery is printed and
    [all_done] never fires; the line carries the event name when
    [show_event] is set (and the name is not empty), the clock reading
    otherwise, however many names are subscribed. *)
Theorem unbounded_subscription_labels_by_flag
    all_events show_event events w c w' ds :
  listeners w = [] →
  run all_events false false show_event None events w = (Awaiting c, w') →
  Forall (registered w') ds →
  all_done c = NotCalled ∧
  deliver_all ds c (stdout w') =
  (replicate (length ds) None, c,
   stdout w' ++
   ((λ x, if show_event && truthy (d_class x)
          then d_class x +:+ ": " +:+ d_msg x
          else d_ts x +:+ " " +:+ d_msg x) <$> ds)).
Proof.
  intros Hw Hrun Hds. unfold run in Hrun.
  destruct (subscribe all_events show_event events w) as [[] w1] eqn:Hsub;
    [|done].
  injection Hrun as <- <-.
  apply subscribe_completed in Hsub as [_ Hl]. rewrite Hw in Hl.
  split; [done|]. unfold init_closure.
  rewrite deliver_all_unbounded. do 2 f_equal.
  apply Forall_fmap_ext. eapply Forall_impl; [exact Hds|].
  intros x Hx. unfold registered in Hx. rewrite Hl in Hx.
  apply list_elem_of_fmap in Hx as (n & [= Hc Hlis] & _).
  rewrite Hlis, <- Hc. unfold make_listener.
  by destruct show_event.
Qed.

Lemma unbounded_subscription_labels_by_flag_witness :
  all_done (Closure None NotCalled) = NotCalled ∧
  deliver_all
    [Delivery "CIRC" None "one" "Mon"; Delivery "STREAM" None "two" "Tue"]
    (Closure None NotCalled) (stdout (World [] [("CIRC", None); ("STREAM", None)])) =
  (replicate 2 None, Closure None NotCalled, ["Mon one"; "Tue two"]).
Proof.
  apply (unbounded_subscription_labels_by_flag
           "CIRC STREAM" false ["circ"; "stream"] (World [] [])
           (Closure None NotCalled)
           (World [] [("CIRC", None); ("STREAM", None)])
           [Delivery "CIRC" None "one" "Mon"; Delivery "STREAM" None "two" "Tue"]).
  - reflexivity.
  - reflexivity.
  - repeat constructor.
Defined.

(** The claim of C7 fails both ways: two names subscribed without
    [show_event] give lines that carry the clock reading, and one name
    subscribed with [show_event] gives lines that carry the event name. *)
Lemma label_by_subscription_count_counterexample :
  (run "CIRC STREAM" false false false None ["circ"; "stream"] (World [] []) =
     (Awaiting (Closure None NotCalled),
      World [] [("CIRC", None); ("STREAM", None)]) ∧
   deliver_all [Delivery "CIRC" None "LAUNCHED" "Mon Jan 1"]
     (Closure None NotCalled) [] =
     ([None], Closure None NotCalled, ["Mon Jan 1 LAUNCHED"])) ∧
  (run "CIRC STREAM" false false true None ["circ"] (World [] []) =
     (Awaiting (Closure None NotCalled), World [] [("CIRC", Some "CIRC")]) ∧
   deliver_all [Delivery "CIRC" (Some "CIRC") "LAUNCHED" "Mon Jan 1"]
     (Closure None NotCalled) [] =
     ([None], Closure None NotCalled, ["CIRC: LAUNCHED"])).
Proof. repeat split; reflexivity. Qed.

End EventsProps.

(** ** Building a circuit *)
Section BuildProps.
Import Py Twisted Circ.

Lemma choice_inr {A} draw (seq : list A) x :
  choice draw seq = inr x → x ∈ seq.
Proof.
  unfold choice. destruct (seq !! _) as [y|] eqn:Hy; [|done].
  intros [= <-]. by eapply list_elem_of_lookup_2.
Qed.

Lemma choice_inl {A} draw (seq : list A) e :
  choice draw seq = inl e → e = IndexError ∧ seq = [].
Proof.
  unfold choice. destruct (seq !! _) as [y|] eqn:Hy; [done|].
  intros [= <-]. split; [done|].
  destruct seq as [|a seq]; [done|].
  apply lookup_ge_None in Hy.
  pose proof (Nat.mod_upper_bound draw (length (a :: seq))) as Hlt.
  cbn [length] in *. lia.
Qed.

Lemma elem_of_values {K} `{Countable K} {V} (d : gmap K V) (v : V) :
  v ∈ values d → ∃ k, d !! k = Some v.
Proof.
  unfold values. intros ([k v'] & -> & Hkv)%list_elem_of_fmap.
  exists k. by apply elem_of_map_to_list.
Qed.

Lemma values_nil {K} `{Countable K} {V} (d : gmap K V) :
  values d = [] → d = ∅.
Proof.
  unfold values. intros Hnil. apply map_to_list_empty_iff.
  by apply fmap_nil_inv in Hnil.
Qed.

(** C8. The token [*] at position 0 yields a router of the entry-guard
    dict, at any later position a router of the router dict; it prints
    nothing, and the only way it fails is [IndexError] on an empty dict. *)
Theorem wildcard_is_drawn_from_position_pool
    (state : TorState) (draw position : nat) (out : list string) :
  match find_router state draw (position, "*") out with
  | (inr h, out') =>
      out' = out ∧
      ∃ r, h = HopRouter r ∧
        if decide (position = 0%nat)
        then ∃ k, entry_guards state !! k = Some r
        else ∃ k, routers state !! k = Some r
  | (inl e, out') =>
      out' = out ∧ e = IndexError ∧
      if decide (position = 0%nat)
      then entry_guards state = ∅
      else routers state = ∅
  end.
Proof.
  unfold find_router. rewrite decide_True by done.
  destruct (decide (position = 0%nat)) as [Hp|Hp].
  - destruct (choice draw (values (entry_guards state))) as [e|r] eqn:Hc;
      cbn [sum_map].
    + apply choice_inl in Hc as [-> Hnil]. auto using values_nil.
    + apply choice_inr, elem_of_values in Hc. eauto.
  - destruct (choice draw (values (routers state))) as [e|r] eqn:Hc;
      cbn [sum_map].
    + apply choice_inl in Hc as [-> Hnil]. auto using values_nil.
    + apply choice_inr, elem_of_values in Hc. eauto.
Qed.

Lemma find_router_known state draw position name out r :
  name ≠ "*" →
  routers state !! name = Some r ∨
  (routers state !! name = None ∧ routers state !! ("$" +:+ name) = Some r) →
  find_router state draw (position, name) out = (inr (HopRouter r), out).
Proof.
  intros Hn Hr. unfold find_router. rewrite decide_False by done.
  by destruct Hr as [->|[-> ->]].
Qed.

Lemma find_router_unknown state draw position name out :
  name ≠ "*" →
  routers state !! name = None →
  routers state !! ("$" +:+ name) = None →
  len name ≠ 40%nat →
  find_router state draw (position, name) out =
  (inl (RuntimeError ("Couldn't find router " +:+ dq +:+ name +:+ dq +:+ ".")),
   out).
Proof.
  intros Hn H1 H2 Hlen. unfold find_router.
  by rewrite decide_False, H1, H2, decide_False by done.
Qed.

Lemma set_stdout_same (w : world) : set_stdout (stdout w) w = w.
Proof. by destruct w. Qed.

(** C5. For the path [["A"; "B"]] where "A" is known (by name, or by name
    behind the sigil) and "B" is not, [build_circuit] raises the
    [RuntimeError] that names "B" and leaves the world as it was: no build
    request is sent. *)
Theorem unknown_hop_aborts_before_build_request
    (nice_router_name : Circ.Router → string)
    (state : TorState) (draws : nat → nat) (w : world) :
  is_Some (routers state !! "A") ∨ is_Some (routers state !! "$A") →
  routers state !! "B" = None →
  routers state !! "$B" = None →
  build_circuit nice_router_name state draws ["A"; "B"] w =
  (Raised (RuntimeError ("Couldn't find router " +:+ dq +:+ "B" +:+ dq +:+ ".")),
   w).
Proof.
  intros HA HB HB'.
  assert (∃ a, find_router state (draws 0%nat) (0%nat, "A") (stdout w) =
               (inr (HopRouter a), stdout w)) as [a Ha].
  { destruct (routers state !! "A") as [a|] eqn:H1.
    - exists a. by apply find_router_known; [|left].
    - destruct HA as [[a Ha]|[a Ha]]; [done|].
      exists a. by apply find_router_known; [|right]. }
  unfold build_circuit.
  rewrite bool_decide_eq_false_2 by done. cbn [andb map_find_router].
  rewrite Ha, find_router_unknown by done.
  by rewrite set_stdout_same.
Qed.

Lemma unknown_hop_aborts_before_build_request_witness :
  build_circuit (λ _, "hop")
    (MkTorState {["A" := MkRouter "A" "$0A"]} ∅ ∅) (λ _, 0%nat) ["A"; "B"]
    (MkWorld [] [] [] [] []) =
  (Raised (RuntimeError ("Couldn't find router " +:+ dq +:+ "B" +:+ dq +:+ ".")),
   MkWorld [] [] [] [] []).
Proof.
  apply (unknown_hop_aborts_before_build_request (λ _, "hop")
           (MkTorState {["A" := MkRouter "A" "$0A"]} ∅ ∅) (λ _, 0%nat)
           (MkWorld [] [] [] [] [])).
  - left. cbn [routers]. rewrite lookup_singleton_eq. by eexists.
  - cbn [routers]. by rewrite lookup_singleton_ne.
  - cbn [routers]. by rewrite lookup_singleton_ne.
Defined.

(** C3, as the code has it. The build request is sent first and no
    listener is added with it; the listener is made from the circuit id of
    the daemon's reply and registered in the step that receives the reply,
    which sends nothing more. *)
Theorem listener_is_registered_on_build_reply
    (nice_router_name : Circ.Router → string) (state : TorState) (draws : nat → nat) (routers : list string)
    (w w1 : world) (circ : Circuit) :
  build_circuit nice_router_name state draws routers w = (AwaitBuildReply, w1) →
  (∃ path, build_requests w1 = build_requests w ++ [path]) ∧
  circuit_listeners w1 = circuit_listeners w ∧
  ∃ w2,
    build_circuit_reply (inr circ) w1 = (AwaitAllDone (id circ), w2) ∧
    circuit_listeners w2 =
      circuit_listeners w1 ++ [MkListener (id circ) true NotCalled] ∧
    build_requests w2 = build_requests w1.
Proof.
  unfold build_circuit. intros Hb.
  match type of Hb with (match ?p with _ => _ end) = _ =>
    destruct p as [[e|path] out] end; [done|].
  injection Hb as <-. split; [by exists path|]. split; [done|].
  eexists. split; [reflexivity|]. done.
Qed.

Lemma listener_is_registered_on_build_reply_witness :
  (∃ path, build_requests (MkWorld [] [None] [] [] []) = [] ++ [path]) ∧
  circuit_listeners (MkWorld [] [None] [] [] []) = [] ∧
  ∃ w2,
    build_circuit_reply (inr (MkCircuit 7)) (MkWorld [] [None] [] [] []) =
      (AwaitAllDone 7, w2) ∧
    circuit_listeners w2 = [] ++ [MkListener 7 true NotCalled] ∧
    build_requests w2 = [None].
Proof.
  apply (listener_is_registered_on_build_reply (λ _, "hop")
           (MkTorState ∅ ∅ ∅) (λ _, 0%nat) ["auto"]
           (MkWorld [] [] [] [] []) (MkWorld [] [None] [] [] [])
           (MkCircuit 7)).
  reflexivity.
Defined.

(** The claim of C3 fails on every build: after [build_circuit] has sent
    its request and while the daemon's reply is awaited, the state has no
    circuit listener. *)
Lemma build_request_precedes_listener_counterexample :
  build_circuit (λ _, "hop") (MkTorState ∅ ∅ ∅) (λ _, 0%nat) ["auto"]
    (MkWorld [] [] [] [] []) =
  (AwaitBuildReply, MkWorld [] [None] [] [] []) ∧
  circuit_listeners (MkWorld [] [None] [] [] []) = [].
Proof. split; reflexivity. Qed.

End BuildProps.

(** ** The listener of a build *)
Section ListenerProps.
Import Py Twisted Circ.

Lemma callback_called d r :
  d = Called r → callback d = (Some AlreadyCalledError, d).
Proof. by intros ->. Qed.

Lemma errback_called e d r :
  d = Called r → errback e d = (Some AlreadyCalledError, d).
Proof. by intros ->. Qed.

(** A notification for another circuit is dropped. *)
Lemma notify_other_circuit green red n self out :
  notification_id n ≠ circid self →
  notify green red n self out = (None, self, out).
Proof.
  intros Hid. destruct n; cbn [notify notification_id] in *;
    unfold circuit_extend, circuit_built, circuit_closed, circuit_failed;
    by rewrite decide_False.
Qed.

(** One notification: the circuit id stays, a result once held stays, and
    only [built], [closed] or [failed] for the listener's circuit gives
    one. *)
Lemma notify_step green red n self out :
  let self' := (notify green red n self out).1.2 in
  circid self' = circid self ∧
  (∀ r, _all_done self = Called r → _all_done self' = Called r) ∧
  (_all_done self = NotCalled → _all_done self' ≠ NotCalled →
   notification_id n = circid self ∧
   match n with Extend _ _ => False | _ => True end).
Proof.
  destruct self as [i f d].
  destruct n as [c r|c|c kw|c kw]; cbn [notify notification_id];
    unfold circuit_extend, circuit_built, circuit_closed, circuit_failed;
    cbn [circid first _all_done];
    (destruct (decide (id c = i)) as [Hid|Hid]; [|by cbn]).
  - destruct f; by cbn.
  - destruct d; by cbn.
  - destruct d; by cbn.
  - destruct d; by cbn.
Qed.

(** What a notification for the listener's own circuit does to a pending
    [all_done]: [built] and [closed] fire it with success, [failed] with the
    [RuntimeError] that carries the two reasons, [extend] leaves it. *)
Lemma notify_own_circuit green red n self out :
  notification_id n = circid self →
  _all_done self = NotCalled →
  (notify green red n self out).1.1 = None ∧
  _all_done (notify green red n self out).1.2 =
  match n with
  | Extend _ _ => NotCalled
  | Built _ | Closed _ _ => Called (inr tt)
  | Failed _ kw =>
      Called (inl (RuntimeError
        (red "failed" +:+ " (" +:+ default EmptyString (reason kw) +:+ ", "
         +:+ default EmptyString (remote_reason kw) +:+ ").")))
  end.
Proof.
  destruct self as [i f d]. cbn [circid _all_done]. intros Hid ->.
  destruct n as [c r|c|c kw|c kw]; cbn [notify notification_id] in *;
    unfold circuit_extend, circuit_built, circuit_closed, circuit_failed;
    cbn [circid first _all_done]; rewrite decide_True by done;
    try done.
  by destruct f.
Qed.

Lemma notify_all_spec green red ns self out :
  let '(es, self', out') := notify_all green red ns self out in
  circid self' = circid self ∧
  (∀ r, _all_done self = Called r → _all_done self' = Called r) ∧
  (_all_done self = NotCalled → _all_done self' ≠ NotCalled →
   ∃ n, n ∈ ns ∧ notification_id n = circid self ∧
        match n with Extend _ _ => False | _ => True end) ∧
  (Forall (λ n, notification_id n ≠ circid self) ns →
   self' = self ∧ out' = out ∧ Forall (λ e, e = None) es).
Proof.
  revert self out. induction ns as [|n ns IH]; intros self out.
  - cbn [notify_all]. repeat split; done.
  - cbn [notify_all].
    pose proof (notify_step green red n self out) as Hstep.
    pose proof (notify_other_circuit green red n self out) as Hother.
    destruct (notify green red n self out) as [[e self1] out1].
    cbn [fst snd] in Hstep. destruct Hstep as (Hc1 & Hkeep1 & Hres1).
    specialize (IH self1 out1).
    destruct (notify_all green red ns self1 out1) as [[es self2] out2].
    destruct IH as (Hc2 & Hkeep2 & Hres2 & Hoth2).
    split; [congruence|]. split; [by auto|]. split.
    + intros Hnc Hc.
      destruct (_all_done self1) as [|r1] eqn:Hd1.
      * destruct (Hres2 eq_refl Hc) as (m & Hm & Hid & Hterm).
        exists m. rewrite elem_of_cons. split; [by right|].
        split; [congruence|done].
      * destruct Hres1 as [Hid Hterm]; [done|done|].
        exists n. rewrite elem_of_cons. by split; [left|].
    + intros [Hn Hns]%Forall_cons.
      specialize (Hother Hn). injection Hother as -> -> ->.
      destruct (Hoth2 Hns) as (-> & -> & Hes).
      split; [done|]. split; [done|]. by constructor.
Qed.

(** C1, as the code has it. A pending [all_done] is fired by a [built] or
    [closed] notification for the listener's circuit (with success) and by
    a [failed] one (with a failure), and by nothing else: through any run
    of notifications the listener keeps its circuit id; a result that
    [all_done] holds is never replaced; [all_done] gets a result only
    through a [built], [closed] or [failed] notification for the listener's
    circuit; and notifications for other circuits change nothing, print
    nothing and raise nothing. *)
Theorem completion_signal_resolves_once
    (green red : string → string) (self : _BuiltCircuitListener)
    (ns : list notification) (out : list string) :
  (∀ n, notification_id n = circid self → _all_done self = NotCalled →
     (notify green red n self out).1.1 = None ∧
     _all_done (notify green red n self out).1.2 =
     match n with
     | Extend _ _ => NotCalled
     | Built _ | Closed _ _ => Called (inr tt)
     | Failed _ kw =>
         Called (inl (RuntimeError
           (red "failed" +:+ " (" +:+ default EmptyString (reason kw) +:+ ", "
            +:+ default EmptyString (remote_reason kw) +:+ ").")))
     end) ∧
  let '(es, self', out') := notify_all green red ns self out in
  circid self' = circid self ∧
  (∀ r, _all_done self = Called r → _all_done self' = Called r) ∧
  (_all_done self = NotCalled → _all_done self' ≠ NotCalled →
   ∃ n, n ∈ ns ∧ notification_id n = circid self ∧
        match n with Extend _ _ => False | _ => True end) ∧
  (Forall (λ n, notification_id n ≠ circid self) ns →
   self' = self ∧ out' = out ∧ Forall (λ e, e = None) es).
Proof.
  split.
  - intros n. apply notify_own_circuit.
  - apply notify_all_spec.
Qed.

Lemma completion_signal_resolves_once_witness :
  _all_done
    (notify (λ x, x) (λ x, x)
       (Failed (MkCircuit 5) (MkKw (Some "TIMEOUT") None))
       (MkListener 5 true NotCalled) []).1.2 =
  Called (inl (RuntimeError "failed (TIMEOUT, ).")) ∧
  (∃ n, n ∈ [Built (MkCircuit 9); Extend (MkCircuit 5) (MkRouter "a" "$0A");
             Built (MkCircuit 5); Failed (MkCircuit 9) (MkKw None None)] ∧
        notification_id n = 5 ∧
        match n with Extend _ _ => False | _ => True end) ∧
  (notify_all (λ x, x) (λ x, x)
     [Built (MkCircuit 9); Failed (MkCircuit 9) (MkKw None None)]
     (MkListener 5 true NotCalled) []).1.2 = MkListener 5 true NotCalled ∧
  (notify_all (λ x, x) (λ x, x)
     [Built (MkCircuit 9); Failed (MkCircuit 9) (MkKw None None)]
     (MkListener 5 true NotCalled) []).2 = [].
Proof.
  split; [|split].
  - pose proof (completion_signal_resolves_once (λ x, x) (λ x, x)
      (MkListener 5 true NotCalled) [] []) as [H _].
    apply (H (Failed (MkCircuit 5) (MkKw (Some "TIMEOUT") None))); reflexivity.
  - pose proof (completion_signal_resolves_once (λ x, x) (λ x, x)
      (MkListener 5 true NotCalled)
      [Built (MkCircuit 9); Extend (MkCircuit 5) (MkRouter "a" "$0A");
       Built (MkCircuit 5); Failed (MkCircuit 9) (MkKw None None)] [])
      as [_ H].
    destruct (notify_all _ _ _ _ _) as [[es self'] out'] eqn:E.
    vm_compute in E. injection E as <- <- <-.
    destruct H as (_ & _ & H & _). apply H; done.
  - pose proof (completion_signal_resolves_once (λ x, x) (λ x, x)
      (MkListener 5 true NotCalled)
      [Built (MkCircuit 9); Failed (MkCircuit 9) (MkKw None None)] [])
      as [_ H].
    destruct (notify_all _ _ _ _ _) as [[es self'] out'] eqn:E.
    destruct H as (_ & _ & _ & H).
    destruct H as (-> & -> & _); [by repeat constructor|]. done.
Defined.

(** The claim of C1 fails twice over: a [closed] notification for the
    listener's circuit gives [all_done] its result, and a [built]
    notification that comes after the result is there prints a line and
    raises [AlreadyCalledError]. *)
Lemma closed_and_late_built_counterexample :
  notify (λ x, x) (λ x, x) (Closed (MkCircuit 5) (MkKw None None))
    (MkListener 5 true NotCalled) [] =
  (None, MkListener 5 true (Called (inr tt)), [": closed." +:+ nl]) ∧
  notify (λ x, x) (λ x, x) (Built (MkCircuit 5))
    (MkListener 5 true (Called (inr tt))) [] =
  (Some AlreadyCalledError, MkListener 5 true (Called (inr tt)),
   [": built." +:+ nl]).
Proof. split; reflexivity. Qed.

End ListenerProps.

(** ** Deleting circuits *)
Section DeleteProps.
Import Py Twisted Circ.

Lemma start_deletes_fst delete if_unused w :
  (start_deletes delete if_unused w).1 =
  (λ c, MkDeletion c if_unused AwaitState) <$> delete.
Proof.
  revert w. induction delete as [|c delete IH]; intros w; [done|].
  cbn [start_deletes delete_circuit].
  specialize (IH (print ("Deleting circuit " +:+
    (if if_unused then "(if unused) " else EmptyString) +:+ dq +:+
    pretty c +:+ dq +:+ "...") w)).
  destruct (start_deletes delete if_unused _) as [gs w2].
  cbn [fst] in *. by rewrite IH.
Qed.

(** What becomes of a generator does not depend on the world around it. *)
Lemma resume_fst_world d r w w' : (resume d r w).1 = (resume d r w').1.
Proof.
  unfold resume.
  destruct (d_status d) as [|c|c|res], r as [[e|st]|[e|s]|res']; try done.
  by destruct (circuits st !! d_circid d).
Qed.

Lemma deliver_lookup_ne k r ds w j :
  j ≠ k → (deliver k r ds w).1 !! j = ds !! j.
Proof.
  intros Hjk. unfold deliver. destruct (ds !! k) as [d|]; [|done].
  destruct (resume d r w) as [d' w']. cbn [fst].
  by rewrite list_lookup_insert_ne.
Qed.

Lemma deliver_lookup_eq k r ds w w0 d :
  ds !! k = Some d → (deliver k r ds w).1 !! k = Some (resume d r w0).1.
Proof.
  intros Hk. unfold deliver. rewrite Hk.
  rewrite (resume_fst_world d r w0 w).
  destruct (resume d r w) as [d' w']. cbn [fst].
  apply list_lookup_insert_eq. by eapply lookup_lt_Some.
Qed.

(** Through any schedule, the [j]-th generator is moved by the results
    addressed to it and by nothing else. *)
Lemma deliver_all_lookup rs ds w w0 j d0 :
  ds !! j = Some d0 →
  (deliver_all rs ds w).1 !! j =
  Some (foldl (λ d r, (resume d r w0).1) d0 (addressed_to j rs)).
Proof.
  revert ds w d0. induction rs as [|[k r] rs IH]; intros ds w d0 Hj; [done|].
  cbn [deliver_all addressed_to omap list_omap fst snd].
  destruct (deliver k r ds w) as [ds1 w1] eqn:Hd.
  destruct (decide (k = j)) as [->|Hkj].
  - cbn [foldl]. apply IH.
    pose proof (deliver_lookup_eq j r ds w w0 d0 Hj) as H. by rewrite Hd in H.
  - apply IH.
    pose proof (deliver_lookup_ne k r ds w j (not_eq_sym Hkj)) as H.
    rewrite Hd in H. cbn [fst] in H. congruence.
Qed.

Lemma DeferredList_None ds :
  DeferredList ds = None ↔ Exists (λ d, ∀ r, d_status d ≠ Settled r) ds.
Proof.
  induction ds as [|d ds IH]; cbn [DeferredList].
  - split; [done | by intros ?%Exists_nil].
  - rewrite Exists_cons, <- IH.
    destruct (d_status d) as [|c|c|[e|v]] eqn:Hs.
    1-3: split; [by left | by destruct (DeferredList ds)].
    all: destruct (DeferredList ds); split; try done;
      try (by right); intros [H|H]; try done; by destruct (H _ eq_refl).
Qed.

Lemma DeferredList_Some ds :
  is_Some (DeferredList ds) ↔ Forall (λ d, ∃ r, d_status d = Settled r) ds.
Proof.
  induction ds as [|d ds IH]; cbn [DeferredList].
  - split; [by constructor | by eexists].
  - rewrite Forall_cons, <- IH.
    destruct (d_status d) as [|c|c|[e|v]] eqn:Hs.
    1-3: split; [intros [? [=]] | intros [[? [=]] _]].
    all: destruct (DeferredList ds) as [l|];
      [split; [intros _; split; by eexists | intros _; by eexists]
      |split; [intros [? [=]] | intros [_ [? [=]]]]].
Qed.

Lemma run_deletes_cons d ds :
  run_deletes (d :: ds) =
  match d_status d with
  | Settled (inr _) => run_deletes ds
  | Settled (inl e) =>
      match DeferredList ds with Some _ => Some (inl e) | None => None end
  | _ => None
  end.
Proof.
  unfold run_deletes. cbn [DeferredList].
  destruct (d_status d) as [|c|c|[e|v]]; try done;
    by destruct (DeferredList ds).
Qed.

Lemma run_deletes_success ds :
  run_deletes ds = Some (inr tt) ↔
  Forall (λ d, d_status d = Settled (inr tt)) ds.
Proof.
  induction ds as [|d ds IH].
  - split; [by constructor | done].
  - rewrite run_deletes_cons, Forall_cons, <- IH.
    destruct (d_status d) as [|c|c|[e|[]]]; try (split; [done | by intros []]).
    destruct (DeferredList ds); split; try done; by intros [].
Qed.

Lemma run_deletes_failure ds e :
  run_deletes ds = Some (inl e) ↔
  ∃ pre d post,
    ds = pre ++ d :: post ∧
    Forall (λ d, d_status d = Settled (inr tt)) pre ∧
    d_status d = Settled (inl e) ∧
    Forall (λ d, ∃ r, d_status d = Settled r) post.
Proof.
  induction ds as [|d ds IH].
  - split; [done | by intros ([] & ? & ? & ? & _)].
  - rewrite run_deletes_cons. split.
    + destruct (d_status d) as [|c|c|[e'|[]]] eqn:Hs; try done.
      * destruct (DeferredList ds) eqn:Hl; [|done]. intros [= ->].
        exists [], d, ds. repeat split; [by constructor|done|].
        apply DeferredList_Some. by eexists.
      * intros (pre & d' & post & -> & Hpre & Hd' & Hpost)%IH.
        exists (d :: pre), d', post. repeat split; [by constructor|done..].
    + intros (pre & d' & post & Heq & Hpre & Hd' & Hpost).
      destruct pre as [|p pre]; simplify_eq/=.
      * rewrite Hd'. apply DeferredList_Some in Hpost as [l ->]. done.
      * apply Forall_cons in Hpre as [-> Hpre]. apply IH.
        by exists pre, d', post.
Qed.

(** C6. Every circuit id of the batch gets a generator, and so a deferred,
    of its own; through any schedule of results each generator is moved by
    the results addressed to it alone, so the failure of one neither cancels
    nor stalls another; the operation has no result while some generator is
    unsettled; once all are settled it succeeds when all succeeded, and
    fails with the failure of the first failed deletion in the order of the
    ids otherwise. *)
Theorem batch_deletion_waits_for_all_and_reports_first_failure
    (delete : list Z) (if_unused : bool) (w : world)
    (rs : list (nat * reply)) :
  let ds0 := (start_deletes delete if_unused w).1 in
  let w0 := (start_deletes delete if_unused w).2 in
  let ds := (deliver_all rs ds0 w0).1 in
  ds0 = (λ c, MkDeletion c if_unused AwaitState) <$> delete ∧
  (∀ j d0, ds0 !! j = Some d0 →
     ds !! j =
     Some (foldl (λ d r, (resume d r w).1) d0 (addressed_to j rs))) ∧
  (run_deletes ds = None ↔
     Exists (λ d, ∀ r, d_status d ≠ Settled r) ds) ∧
  (run_deletes ds = Some (inr tt) ↔
     Forall (λ d, d_status d = Settled (inr tt)) ds) ∧
  (∀ e, run_deletes ds = Some (inl e) ↔
     ∃ pre d post,
       ds = pre ++ d :: post ∧
       Forall (λ d, d_status d = Settled (inr tt)) pre ∧
       d_status d = Settled (inl e) ∧
       Forall (λ d, ∃ r, d_status d = Settled r) post).
Proof.
  cbv zeta. split; [apply start_deletes_fst|].
  split; [intros j d0 Hj; by apply deliver_all_lookup|].
  split.
  { unfold run_deletes. rewrite fmap_None. apply DeferredList_None. }
  split; [apply run_deletes_success|].
  intros e. apply run_deletes_failure.
Qed.

(** Circuits 5 and 7 with only 5 in the state: the deletion of 7 fails
    first, the deletion of 5 then runs to its end, and the operation fails
    with the failure of 7 once both are settled. *)
Lemma batch_deletion_waits_for_all_and_reports_first_failure_witness :
  (deliver_all
     [(1%nat, StateReply (inr (MkTorState ∅ ∅ {[5 := MkCircuit 5]})));
      (0%nat, StateReply (inr (MkTorState ∅ ∅ {[5 := MkCircuit 5]})));
      (0%nat, CloseReply (inr "OK"));
      (0%nat, ClosedReply (inr tt))]
     (start_deletes [5; 7] false (MkWorld [] [] [] [] [])).1
     (start_deletes [5; 7] false (MkWorld [] [] [] [] [])).2).1 !! 0%nat =
  Some (MkDeletion 5 false (Settled (inr tt))) ∧
  ∃ pre d post,
    (deliver_all
       [(1%nat, StateReply (inr (MkTorState ∅ ∅ {[5 := MkCircuit 5]})));
        (0%nat, StateReply (inr (MkTorState ∅ ∅ {[5 := MkCircuit 5]})));
        (0%nat, CloseReply (inr "OK"));
        (0%nat, ClosedReply (inr tt))]
       (start_deletes [5; 7] false (MkWorld [] [] [] [] [])).1
       (start_deletes [5; 7] false (MkWorld [] [] [] [] [])).2).1 =
      pre ++ d :: post ∧
    Forall (λ d, d_status d = Settled (inr tt)) pre ∧
    d_status d = Settled (inl (RuntimeError "No such circuit '7'")) ∧
    Forall (λ d, ∃ r, d_status d = Settled r) post.
Proof.
  pose proof (batch_deletion_waits_for_all_and_reports_first_failure
    [5; 7] false (MkWorld [] [] [] [] [])
    [(1%nat, StateReply (inr (MkTorState ∅ ∅ {[5 := MkCircuit 5]})));
     (0%nat, StateReply (inr (MkTorState ∅ ∅ {[5 := MkCircuit 5]})));
     (0%nat, CloseReply (inr "OK"));
     (0%nat, ClosedReply (inr tt))]) as H.
  cbv zeta in H. destruct H as (_ & Hown & _ & _ & Hfail).
  split.
  - rewrite (Hown 0%nat (MkDeletion 5 false AwaitState)) by reflexivity.
    reflexivity.
  - apply Hfail. reflexivity.
Defined.

(** While the deletion of 5 is still under way the operation has no result,
    though the deletion of 7 has failed already; the close request for 5 is
    the only one sent. *)
Example batch_deletion_scenario :
  let state := MkTorState ∅ ∅ {[5 := MkCircuit 5]} in
  let '(ds0, w0) := start_deletes [5; 7] false (MkWorld [] [] [] [] []) in
  let '(ds1, w1) :=
    deliver_all [(1%nat, StateReply (inr state));
                 (0%nat, StateReply (inr state))] ds0 w0 in
  let '(ds2, w2) :=
    deliver_all [(0%nat, CloseReply (inr "OK"));
                 (0%nat, ClosedReply (inr tt))] ds1 w1 in
  d_status <$> ds1 =
    [AwaitCloseAck (MkCircuit 5);
     Settled (inl (RuntimeError "No such circuit '7'"))] ∧
  run_deletes ds1 = None ∧
  d_status <$> ds2 =
    [Settled (inr tt); Settled (inl (RuntimeError "No such circuit '7'"))] ∧
  run_deletes ds2 = Some (inl (RuntimeError "No such circuit '7'")) ∧
  close_requests w2 = [(5, false)].
Proof. vm_compute. repeat split; reflexivity. Qed.

End DeleteProps.

(** ** Waiting for a router *)
Section RelayProps.
Import Py Twisted Relay.

(** A refresh that does not bring the router: the listener fires, the loop
    looks the router up, registers the next listener, and the one that
    fired removes itself. *)
Lemma refresh_without_router rf X k ds out :
  length ds = k →
  r_routers rf !! X = None →
  on_refresh rf (Suspended X k) (MkWorld out [k] (ds ++ [NotCalled])) =
  ([None], Suspended X (S k),
   MkWorld (out ++ ["Got NEWCONSENSUS at " +:+ r_now rf]) [S k]
     ((ds ++ [Called (inr tt)]) ++ [NotCalled])).
Proof.
  intros Hk HX. unfold on_refresh.
  cbn [listeners call_listeners]. unfold _newconsensus.
  cbn [deferreds stdout listeners].
  rewrite lookup_app_r, Hk, Nat.sub_diag by lia. cbn [lookup list_lookup callback].
  rewrite decide_True by done. unfold _await_router_resume. rewrite HX.
  unfold _when_updated. cbn [deferreds stdout listeners].
  rewrite length_insert, length_app. cbn [length].
  replace (<[k:=Called (inr ())]> (ds ++ [NotCalled]))
    with (ds ++ [Called (inr tt)]).
  2:{ rewrite insert_app_r_alt, Hk, Nat.sub_diag by lia. done. }
  unfold remove_listener. cbn [filter list_filter app].
  rewrite decide_False by (intros H; by apply H).
  rewrite decide_True by lia.
  repeat f_equal; lia.
Qed.

(** A refresh that brings the router: the loop returns it, and no listener
    is left. *)
Lemma refresh_with_router rf X k ds out r :
  length ds = k →
  r_routers rf !! X = Some r →
  on_refresh rf (Suspended X k) (MkWorld out [k] (ds ++ [NotCalled])) =
  ([None], Found r,
   MkWorld (out ++ ["Got NEWCONSENSUS at " +:+ r_now rf]) []
     (ds ++ [Called (inr tt)])).
Proof.
  intros Hk HX. unfold on_refresh.
  cbn [listeners call_listeners]. unfold _newconsensus.
  cbn [deferreds stdout listeners].
  rewrite lookup_app_r, Hk, Nat.sub_diag by lia. cbn [lookup list_lookup callback].
  rewrite decide_True by done. unfold _await_router_resume. rewrite HX.
  cbn [deferreds stdout listeners].
  replace (<[k:=Called (inr ())]> (ds ++ [NotCalled]))
    with (ds ++ [Called (inr tt)]).
  2:{ rewrite insert_app_r_alt, Hk, Nat.sub_diag by lia. done. }
  unfold remove_listener. cbn [filter list_filter].
  by rewrite decide_False by (intros H; by apply H).
Qed.

(** With no listener registered a refresh does nothing. *)
Lemma refreshes_without_listener rfs st w :
  listeners w = [] →
  refreshes rfs st w = (replicate (length rfs) st, [], w).
Proof.
  intros Hl. induction rfs as [|rf rfs IH]; [done|].
  cbn [refreshes]. unfold on_refresh. rewrite Hl. cbn [call_listeners].
  by rewrite IH.
Qed.

(** The loop through any number of refreshes that do not bring the router,
    then one that does, then any others. *)
Lemma refreshes_until_router absent rf later X k ds out r :
  length ds = k →
  Forall (λ rf, r_routers rf !! X = None) absent →
  r_routers rf !! X = Some r →
  refreshes (absent ++ rf :: later) (Suspended X k)
    (MkWorld out [k] (ds ++ [NotCalled])) =
  (((λ i, Suspended X (k + S i)) <$> seq 0 (length absent)) ++
   replicate (S (length later)) (Found r),
   replicate (S (length absent)) None,
   MkWorld
     (out ++ ((λ rf, "Got NEWCONSENSUS at " +:+ r_now rf) <$> absent ++ [rf]))
     [] (ds ++ replicate (S (length absent)) (Called (inr tt)))).
Proof.
  intros Hk Habs Hrf. revert k ds out Hk.
  induction Habs as [|rf0 absent H0 _ IH]; intros k ds out Hk.
  - cbn [app refreshes]. rewrite (refresh_with_router _ _ _ _ _ r) by done.
    rewrite refreshes_without_listener by done. done.
  - cbn [app refreshes]. rewrite refresh_without_router by done.
    rewrite (IH (S k) (ds ++ [Called (inr tt)]) _)
      by (rewrite length_app; cbn [length]; lia).
    cbn [length seq fmap list_fmap app replicate].
    rewrite <- !app_assoc. cbn [app].
    rewrite <- fmap_S_seq, <- list_fmap_compose.
    do 2 f_equal. rewrite Nat.add_1_r. do 2 f_equal.
    apply list_fmap_ext. intros _ i _. cbn. f_equal. lia.
Qed.

(** On its own [_await_router] waits for a refresh before it looks the
    router up, whatever the state holds: the check that spares the wait is
    the one of [router_await]. *)
Remark _await_router_suspends_first X w :
  _await_router X w =
  (Suspended X (length (deferreds w)),
   MkWorld (stdout w) (listeners w ++ [length (deferreds w)])
     (deferreds w ++ [NotCalled])).
Proof. reflexivity. Qed.

(** C9. Waiting for router X: when the state holds X already,
    [router_await] has it at once and registers no listener; otherwise it
    suspends, stays suspended through three refreshes without X, holds the
    router right after the fourth, which brings it, and nothing happens at
    any later refresh: four listeners fired once each, none is left, none
    raised. *)
Theorem await_loop_resolves_on_fourth_refresh
    (routers0 : gmap string Circ.Router) (arg : string) (w : world)
    (rf1 rf2 rf3 rf4 : refresh) (later : list refresh) (r : Circ.Router) :
  let X := hex_id arg in
  let k := length (deferreds w) in
  negb (startswith X "$") && bool_decide (len X = 41%nat) = false →
  listeners w = [] →
  r_routers rf1 !! X = None →
  r_routers rf2 !! X = None →
  r_routers rf3 !! X = None →
  r_routers rf4 !! X = Some r →
  (∀ r0, routers0 !! X = Some r0 →
     router_await routers0 arg w =
     (Found r0,
      MkWorld (stdout w ++ ["Router already present:"]) [] (deferreds w))) ∧
  (routers0 !! X = None →
     ∃ w0,
       router_await routers0 arg w = (Suspended X k, w0) ∧
       refreshes (rf1 :: rf2 :: rf3 :: rf4 :: later) (Suspended X k) w0 =
       ([Suspended X (k + 1); Suspended X (k + 2); Suspended X (k + 3);
         Found r] ++ replicate (length later) (Found r),
        [None; None; None; None],
        MkWorld
          (stdout w ++
           ["Got NEWCONSENSUS at " +:+ r_now rf1;
            "Got NEWCONSENSUS at " +:+ r_now rf2;
            "Got NEWCONSENSUS at " +:+ r_now rf3;
            "Got NEWCONSENSUS at " +:+ r_now rf4])
          [] (deferreds w ++ replicate 4 (Called (inr tt))))).
Proof.
  cbv zeta. intros Hhex Hl H1 H2 H3 H4. split.
  - intros r0 Hr0. unfold router_await. by rewrite Hhex, Hr0, Hl.
  - intros Hr0. eexists. split.
    + unfold router_await. rewrite Hhex, Hr0. unfold _await_router, _when_updated.
      rewrite Hl. reflexivity.
    + cbn [app].
      rewrite (refreshes_until_router [rf1; rf2; rf3] rf4 later _ _ _ _ r)
        by (done || by repeat constructor).
      done.
Qed.

Lemma await_loop_resolves_on_fourth_refresh_witness :
  ∃ w0,
    router_await ∅ "$X" (MkWorld [] [] []) = (Suspended "$X" 0, w0) ∧
    refreshes
      [MkRefresh ∅ "t1"; MkRefresh ∅ "t2"; MkRefresh ∅ "t3";
       MkRefresh {["$X" := Circ.MkRouter "X" "$X"]} "t4";
       MkRefresh {["$X" := Circ.MkRouter "X" "$X"]} "t5"]
      (Suspended "$X" 0) w0 =
    ([Suspended "$X" 1; Suspended "$X" 2; Suspended "$X" 3;
      Found (Circ.MkRouter "X" "$X"); Found (Circ.MkRouter "X" "$X")],
     [None; None; None; None],
     MkWorld
       ["Got NEWCONSENSUS at t1"; "Got NEWCONSENSUS at t2";
        "Got NEWCONSENSUS at t3"; "Got NEWCONSENSUS at t4"]
       [] (replicate 4 (Called (inr tt)))).
Proof.
  apply (await_loop_resolves_on_fourth_refresh ∅ "$X" (MkWorld [] [] [])
           (MkRefresh ∅ "t1") (MkRefresh ∅ "t2") (MkRefresh ∅ "t3")
           (MkRefresh {["$X" := Circ.MkRouter "X" "$X"]} "t4")
           [MkRefresh {["$X" := Circ.MkRouter "X" "$X"]} "t5"]
           (Circ.MkRouter "X" "$X")); reflexivity.
Defined.

End RelayProps.

(** * Further properties *)

(** ** Strings, continued *)
Section MoreStrings.
Import Py.

Lemma app_assoc_str (a b c : string) : (a +:+ b) +:+ c = a +:+ b +:+ c.
Proof. induction a as [|x a IH]; [done|]. rewrite !app_cons. by rewrite IH. Qed.

Lemma app_empty_r (a : string) : a +:+ EmptyString = a.
Proof. induction a as [|x a IH]; [done|]. rewrite app_cons. by rewrite IH. Qed.

Lemma rev_app_spec (s1 s2 : string) :
  String.rev_app s1 s2 = String.rev s1 +:+ s2.
Proof.
  unfold String.rev. revert s2. induction s1 as [|a s1 IH]; intros s2; [done|].
  cbn [String.rev_app]. rewrite IH, (IH (String a EmptyString)).
  by rewrite app_assoc_str.
Qed.

Lemma rev_cons (a : ascii) (s : string) :
  String.rev (String a s) = String.rev s +:+ String a EmptyString.
Proof. unfold String.rev at 1. cbn [String.rev_app]. apply rev_app_spec. Qed.

(** Every word of [words_go] lies in the text it was cut from: the word
    under construction followed by what is left to read. *)
Lemma words_go_contained (cur : option string) (s x : string) :
  x ∈ String.words_go cur s →
  ∃ a b, from_option String.rev EmptyString cur +:+ s = a +:+ x +:+ b.
Proof.
  revert cur. induction s as [|c s IH]; intros cur; cbn [String.words_go].
  - destruct cur as [w|]; cbn [fmap option_fmap option_map option_list from_option].
    + intros ->%list_elem_of_singleton. exists EmptyString, EmptyString.
      by rewrite app_nil.
    + by intros ?%not_elem_of_nil.
  - destruct (Ascii.is_space c).
    + intros [Hx|Hx]%elem_of_app.
      * destruct cur as [w|];
          cbn [fmap option_fmap option_map option_list from_option] in *.
        -- apply list_elem_of_singleton in Hx as ->.
           exists EmptyString, (String c s). by rewrite app_nil.
        -- by apply not_elem_of_nil in Hx.
      * apply IH in Hx as (a & b & Hab). cbn [from_option] in Hab.
        rewrite app_nil in Hab.
        exists (from_option String.rev EmptyString cur +:+ String c a), b.
        rewrite app_assoc_str, app_cons. by rewrite Hab.
    + intros (a & b & Hab)%IH. exists a, b. rewrite <- Hab.
      destruct cur as [w|]; cbn [from_option].
      * by rewrite rev_cons, app_assoc_str.
      * done.
Qed.

(** A name that [split] yields occurs in the string it was split from. *)
Lemma split_contained (s x : string) : x ∈ split s → str_in x s = true.
Proof.
  intros (a & b & Hab)%words_go_contained. apply str_in_spec.
  exists a, b. by rewrite <- Hab.
Qed.


Lemma len_app (a b : string) : len (a +:+ b) = (len a + len b)%nat.
Proof. induction a as [|c a IH]; [done|]. rewrite app_cons. cbn. f_equal. exact IH. Qed.

End MoreStrings.

(** ** Event subscription, continued *)
Section MoreEventsProps.
Import Py Twisted Events.

(** When the loop leaves through [return], some requested name failed the
    check, and the line that names it is the only one printed. *)
Lemma subscribe_returned all_events show_event events w w' :
  subscribe all_events show_event events w = (false, w') →
  ∃ e, e ∈ events ∧ str_in (upper e) all_events = false ∧
       stdout w' = stdout w ++ ["Invalid event: " +:+ upper e].
Proof.
  revert w. induction events as [|e events IH]; intros w; [done|].
  cbn [subscribe]. destruct (str_in (upper e) all_events) eqn:He; cbn [negb].
  - intros (e' & Hin & Hbad & Hout)%IH. exists e'.
    split; [by apply elem_of_cons; right|]. done.
  - intros [= <-]. exists e. split; [by apply elem_of_cons; left|]. done.
Qed.

Lemma subscribe_completed_valid all_events show_event events w w' :
  subscribe all_events show_event events w = (true, w') →
  Forall (λ x, str_in (upper x) all_events = true) events.
Proof.
  revert w. induction events as [|e events IH]; intros w; [by constructor|].
  cbn [subscribe]. destruct (str_in (upper e) all_events) eqn:He; cbn [negb];
    [|done].
  intros ?%IH. by constructor.
Qed.

(** X1. Listing prints the names of the daemon's string, one per line, and
    registers nothing; each of these names that is written in upper case is
    accepted when it is subscribed to. *)
Theorem listed_name_is_accepted
    (all_events : string) (once show_event : bool) (count : option Z)
    (events : list string) (w : world) :
  run all_events true once show_event count events w =
    (Returned None, World (stdout w ++ split all_events) (listeners w)) ∧
  ∀ x, x ∈ split all_events → upper x = x →
    run all_events false once show_event count [x] w =
    (Awaiting (init_closure once count),
     World (stdout w) (listeners w ++ [(x, make_listener show_event x)])).
Proof.
  split; [done|]. intros x Hx Hup. unfold run. cbn [subscribe].
  rewrite Hup, (split_contained _ _ Hx). done.
Qed.

Lemma listed_name_is_accepted_witness :
  run "CIRC STREAM BW" false false true None ["STREAM"] (World [] []) =
  (Awaiting (init_closure false None),
   World [] ([] ++ [("STREAM", make_listener true "STREAM")])).
Proof.
  apply (listed_name_is_accepted "CIRC STREAM BW" false true None []
           (World [] [])); [|reflexivity].
  vm_compute. apply elem_of_cons; right. apply elem_of_cons; by left.
Defined.

(** A listed name in lower case is not accepted: the request is upper-cased,
    the daemon's string is not. *)
Example listed_lower_case_name_is_rejected :
  split "circ" = ["circ"] ∧
  run "circ" false false false None ["circ"] (World [] []) =
  (Returned (Some (Closure None NotCalled)),
   World ["Invalid event: CIRC"] []).
Proof. split; reflexivity. Qed.

(** X2. With a count [n] in force ([--once] stands for a count of one and
    overrides [--count]) the first [n] deliveries are printed as the bare
    message, whatever the listener binds; every later delivery raises
    [UnboundLocalError] and prints nothing; a count of zero or below prints
    nothing at all; [all_done] is never fired. *)
Theorem counted_subscription_prints_first_n
    (once : bool) (count : option Z) (n : Z) (ds : list delivery)
    (out : list string) :
  (if once then Some 1 else count) = Some n →
  deliver_all ds (init_closure once count) out =
  (replicate (Z.to_nat n `min` length ds) None ++
   replicate (length ds - Z.to_nat n) (Some (UnboundLocalError "all_done")),
   Closure (Some (n - Z.of_nat (length ds))) NotCalled,
   out ++ (d_msg <$> take (Z.to_nat n) ds)).
Proof.
  intros Hn. unfold init_closure. rewrite Hn.
  destruct (Z.le_gt_cases n 0) as [Hle|Hgt].
  - rewrite deliver_all_exhausted by done.
    replace (Z.to_nat n) with 0%nat by lia.
    cbn [Nat.min take fmap list_fmap replicate app].
    by rewrite Nat.sub_0_r, app_nil_r.
  - rewrite <- (Z2Nat.id n) at 1 by lia. rewrite deliver_all_counted.
    by rewrite Z2Nat.id by lia.
Qed.

Lemma counted_subscription_prints_first_n_witness :
  deliver_all
    [Delivery "CIRC" (Some "CIRC") "one" "Mon";
     Delivery "CIRC" (Some "CIRC") "two" "Tue"]
    (init_closure true (Some 5)) [] =
  (replicate (Z.to_nat 1 `min` 2) None ++
   replicate (2 - Z.to_nat 1) (Some (UnboundLocalError "all_done")),
   Closure (Some (1 - Z.of_nat 2)) NotCalled,
   [] ++ (d_msg <$> take (Z.to_nat 1)
            [Delivery "CIRC" (Some "CIRC") "one" "Mon";
             Delivery "CIRC" (Some "CIRC") "two" "Tue"])).
Proof.
  apply (counted_subscription_prints_first_n true (Some 5) 1
           [Delivery "CIRC" (Some "CIRC") "one" "Mon";
            Delivery "CIRC" (Some "CIRC") "two" "Tue"] []).
  reflexivity.
Defined.

(** X3. [run] gets to wait on [all_done] exactly when every requested name
    passes the check: when they all pass it waits, having printed nothing
    and registered one listener per name, repeated names included, in the
    order given; and whenever it waits, they all passed. *)
Theorem run_waits_iff_every_name_is_valid
    (all_events : string) (once show_event : bool) (count : option Z)
    (events : list string) (w : world) :
  (Forall (λ x, str_in (upper x) all_events = true) events ↔
   run all_events false once show_event count events w =
   (Awaiting (init_closure once count),
    World (stdout w)
      (listeners w ++
       ((λ x, (upper x, make_listener show_event (upper x))) <$> events)))) ∧
  (Forall (λ x, str_in (upper x) all_events = true) events ↔
   ∃ c w', run all_events false once show_event count events w =
           (Awaiting c, w')).
Proof.
  assert (Forall (λ x, str_in (upper x) all_events = true) events →
          run all_events false once show_event count events w =
          (Awaiting (init_closure once count),
           World (stdout w)
             (listeners w ++
              ((λ x, (upper x, make_listener show_event (upper x)))
                 <$> events)))) as Hwaits.
  { intros Hall. unfold run.
    rewrite <- (app_nil_r events) at 1.
    by rewrite (subscribe_valid_prefix _ _ _ _ _ Hall). }
  assert (∀ c w', run all_events false once show_event count events w =
                  (Awaiting c, w') →
          Forall (λ x, str_in (upper x) all_events = true) events) as Hvalid.
  { intros c w' Hrun. unfold run in Hrun.
    destruct (subscribe all_events show_event events w) as [[] w1] eqn:Hs;
      [|done].
    by eapply subscribe_completed_valid. }
  split; split.
  - exact Hwaits.
  - intros Hrun. by eapply Hvalid.
  - intros Hall. eexists _, _. by apply Hwaits.
  - intros (c & w' & Hrun). by eapply Hvalid.
Qed.

(** X4. The [events] command, when it is not listing, either refuses an empty
    list of names, or returns after naming an invalid event, or waits with
    at least one listener of its own registered: it never waits for events
    that nothing listens to. *)
Theorem events_command_never_waits_unheard
    (all_events : string) (once show_event : bool) (count : option Z)
    (events : list string) (w : world) :
  match Cli.events all_events false once show_event count events w with
  | Cli.UsageError _ => events = []
  | Cli.Ran (Returned _, w') =>
      ∃ e, e ∈ events ∧ str_in (upper e) all_events = false ∧
           stdout w' = stdout w ++ ["Invalid event: " +:+ upper e]
  | Cli.Ran (Awaiting _, w') =>
      ∃ l ls, listeners w' = listeners w ++ l :: ls
  end.
Proof.
  unfold Cli.events. destruct events as [|e events].
  - done.
  - rewrite bool_decide_eq_false_2 by (cbn [length]; lia). cbn [andb].
    unfold run.
    destruct (subscribe all_events show_event (e :: events) w)
      as [[] w1] eqn:Hs.
    + apply subscribe_completed in Hs as [_ ->].
      cbn [fmap list_fmap]. by eexists _, _.
    + by apply subscribe_returned in Hs.
Qed.

(** Called with no name at all (which the command refuses), [run] would
    wait with nothing registered. *)
Example run_without_names_waits_unheard :
  run "CIRC" false false false None [] (World [] []) =
  (Awaiting (Closure None NotCalled), World [] []).
Proof. reflexivity. Qed.

End MoreEventsProps.

(** ** Building a circuit, continued *)
Section MoreBuildProps.
Import Py Twisted Circ.

(** [find_router] only ever adds to what is printed, and what it returns
    does not depend on what was printed before. *)
Lemma find_router_out state draw args out :
  find_router state draw args out =
  ((find_router state draw args []).1,
   out ++ (find_router state draw args []).2).
Proof.
  destruct args as [position n]. unfold find_router.
  repeat case_decide; repeat case_match; cbn [fst snd];
    by rewrite ?app_nil_r.
Qed.

Lemma map_find_router_app state draws p l1 l2 out :
  map_find_router state draws p (l1 ++ l2) out =
  match map_find_router state draws p l1 out with
  | (inl e, out1) => (inl e, out1)
  | (inr hs1, out1) =>
      match map_find_router state draws (p + length l1) l2 out1 with
      | (inl e, out2) => (inl e, out2)
      | (inr hs2, out2) => (inr (hs1 ++ hs2), out2)
      end
  end.
Proof.
  revert p out. induction l1 as [|n l1 IH]; intros p out.
  - cbn [app map_find_router length]. rewrite Nat.add_0_r.
    by destruct (map_find_router state draws p l2 out) as [[e|hs] o].
  - cbn [app map_find_router length].
    destruct (find_router state (draws p) (p, n) out) as [[e|h] o1]; [done|].
    rewrite IH. replace (S p + length l1)%nat with (p + S (length l1))%nat by lia.
    destruct (map_find_router state draws (S p) l1 o1) as [[e|hs1] o2]; [done|].
    by destruct (map_find_router state draws (p + S (length l1)) l2 o2)
      as [[e|hs2] o3].
Qed.

(** A path that resolves has one hop per token, and the hop at each
    position is what [find_router] makes of the token at that position. *)
Lemma map_find_router_positions state draws p names out hs out' :
  map_find_router state draws p names out = (inr hs, out') →
  length hs = length names ∧
  ∀ i n, names !! i = Some n →
    hs !! i = match (find_router state (draws (p + i)%nat) ((p + i)%nat, n) []).1 with
              | inr h => Some h
              | inl _ => None
              end ∧
    is_Some (hs !! i).
Proof.
  revert p out hs out'. induction names as [|n0 names IH]; intros p out hs out'.
  - intros [= <- <-]. split; [done|]. intros i n Hn. by rewrite lookup_nil in Hn.
  - cbn [map_find_router]. rewrite find_router_out.
    destruct (find_router state (draws p) (p, n0) []) as [[e|h] o1] eqn:Hf;
      cbn [fst snd]; [done|].
    destruct (map_find_router state draws (S p) names (out ++ o1))
      as [[e|hs'] o2] eqn:Hm; [done|].
    intros [= <- <-]. apply IH in Hm as [Hlen Hpos].
    split; [cbn [length]; by rewrite Hlen|].
    intros [|i] n Hn.
    + cbn in Hn. injection Hn as <-. rewrite Nat.add_0_r, Hf. cbn. eauto.
    + cbn [lookup list_lookup] in Hn. replace (p + S i)%nat with (S p + i)%nat by lia.
      by apply Hpos.
Qed.

(** X5. The build stops at the first token that [find_router] fails on: the
    exception of that call is the one raised, the tokens after it are not
    looked at, and neither a build request nor a listener is added. *)
Theorem build_aborts_at_first_failing_token
    (nice_router_name : Circ.Router → string) (state : TorState) (draws : nat → nat)
    (pre : list string) (bad : string) (post : list string) (w : world)
    (hs : list hop) (out1 : list string) (e : exn) (out2 : list string) :
  length (pre ++ bad :: post) ≠ 1%nat ∨ lower bad ≠ "auto" →
  map_find_router state draws 0 pre (stdout w) = (inr hs, out1) →
  find_router state (draws (length pre)) (length pre, bad) out1 = (inl e, out2) →
  ∃ w1,
    build_circuit nice_router_name state draws (pre ++ bad :: post) w =
      (Raised e, w1) ∧
    stdout w1 = out2 ∧
    build_requests w1 = build_requests w ∧
    circuit_listeners w1 = circuit_listeners w.
Proof.
  intros Hauto Hpre Hbad. exists (set_stdout out2 w). split; [|done].
  unfold build_circuit.
  assert (bool_decide (length (pre ++ bad :: post) = 1%nat) &&
          bool_decide (lower <$> (pre ++ bad :: post) !! 0%nat = Some "auto")
          = false) as ->.
  { apply andb_false_iff. destruct Hauto as [Hlen|Hlow].
    - left. by apply bool_decide_eq_false_2.
    - destruct pre as [|p pre].
      + right. apply bool_decide_eq_false_2. cbn. congruence.
      + left. apply bool_decide_eq_false_2. cbn [app length].
        rewrite length_app. cbn [length]. lia. }
  rewrite map_find_router_app, Hpre. cbn [map_find_router Nat.add].
  by rewrite Hbad.
Qed.

Lemma build_aborts_at_first_failing_token_witness :
  ∃ w1,
    build_circuit (λ _, "hop")
      (MkTorState {["A" := MkRouter "A" "$0A"]} ∅ ∅) (λ _, 0%nat)
      (["A"] ++ "" :: ["A"]) (MkWorld [] [] [] [] []) =
      (Raised (RuntimeError ("Couldn't find router " +:+ dq +:+ dq +:+ ".")),
       w1) ∧
    stdout w1 = [] ∧ build_requests w1 = [] ∧ circuit_listeners w1 = [].
Proof.
  apply (build_aborts_at_first_failing_token (λ _, "hop")
           (MkTorState {["A" := MkRouter "A" "$0A"]} ∅ ∅) (λ _, 0%nat)
           ["A"] "" ["A"] (MkWorld [] [] [] [] [])
           [HopRouter (MkRouter "A" "$0A")] []).
  - left. cbn. lia.
  - reflexivity.
  - reflexivity.
Defined.

(** X6. A path that is resolved is sent with one hop per token, the hop at each
    position being what [find_router] returns for the token at that
    position, with the draw of that position. *)
Theorem resolved_path_keeps_positions
    (nice_router_name : Circ.Router → string) (state : TorState) (draws : nat → nat)
    (names : list string) (w w1 : world) :
  length names ≠ 1%nat ∨ lower <$> names !! 0%nat ≠ Some "auto" →
  build_circuit nice_router_name state draws names w = (AwaitBuildReply, w1) →
  ∃ hs,
    build_requests w1 = build_requests w ++ [Some hs] ∧
    length hs = length names ∧
    ∀ i n, names !! i = Some n →
      ∃ h, hs !! i = Some h ∧
           (find_router state (draws i) (i, n) []).1 = inr h.
Proof.
  intros Hauto. unfold build_circuit.
  assert (bool_decide (length names = 1%nat) &&
          bool_decide (lower <$> names !! 0%nat = Some "auto") = false) as ->.
  { apply andb_false_iff.
    destruct Hauto; [left|right]; by apply bool_decide_eq_false_2. }
  destruct (map_find_router state draws 0 names (stdout w))
    as [[e|hs] out] eqn:Hm; [done|].
  destruct (map_nice_router_name nice_router_name hs) as [e|ns]; [done|].
  intros [= <-]. exists hs. split; [done|].
  apply map_find_router_positions in Hm as [Hlen Hpos].
  split; [done|]. intros i n Hn.
  destruct (Hpos i n Hn) as [Hi [h Hh]]. cbn [Nat.add] in Hi.
  exists h. split; [done|].
  destruct (find_router state (draws i) (i, n) []).1; congruence.
Qed.

Lemma resolved_path_keeps_positions_witness :
  ∃ hs,
    build_requests
      (send_build (Some [HopRouter (MkRouter "B" "$0B");
                         HopRouter (MkRouter "A" "$0A")])
         (set_stdout ["Building circuit: hop->hop" +:+ nl]
            (MkWorld [] [] [] [] []))) = [] ++ [Some hs] ∧
    length hs = length ["B"; "0A"] ∧
    ∀ i n, ["B"; "0A"] !! i = Some n →
      ∃ h, hs !! i = Some h ∧
           (find_router
              (MkTorState {["$0A" := MkRouter "A" "$0A"; "B" := MkRouter "B" "$0B"]} ∅ ∅)
              0%nat (i, n) []).1 = inr h.
Proof.
  apply (resolved_path_keeps_positions (λ _, "hop")
           (MkTorState {["$0A" := MkRouter "A" "$0A"; "B" := MkRouter "B" "$0B"]} ∅ ∅)
           (λ _, 0%nat) ["B"; "0A"] (MkWorld [] [] [] [] [])).
  - left. cbn. lia.
  - vm_compute. reflexivity.
Defined.






(** X8. The path is left to Tor (a request without a path) exactly when the
    only token reads [auto] in any mix of cases; the state is then not
    consulted at all, not even when it knows a router of that name. *)
Theorem path_is_left_to_tor_only_for_sole_auto
    (nice_router_name : Circ.Router → string) (state : TorState) (draws : nat → nat)
    (names : list string) (w : world) :
  (∀ r, lower r = "auto" →
     build_circuit nice_router_name state draws [r] w =
     (AwaitBuildReply, send_build None w)) ∧
  (∀ w1, build_circuit nice_router_name state draws names w =
           (AwaitBuildReply, w1) →
     (build_requests w1 = build_requests w ++ [None] ↔
      ∃ r, names = [r] ∧ lower r = "auto")).
Proof.
  split.
  - intros r Hr. unfold build_circuit. cbn [length lookup list_lookup fmap option_fmap option_map].
    rewrite Hr, !bool_decide_eq_true_2 by done. cbn [andb].
    by rewrite set_stdout_same.
  - intros w1. unfold build_circuit.
    destruct (bool_decide (length names = 1%nat) &&
              bool_decide (lower <$> names !! 0%nat = Some "auto")) eqn:Ha.
    + intros [= <-]. split; [|done]. intros _.
      apply andb_true_iff in Ha as [Hl Hr].
      apply bool_decide_eq_true_1 in Hl, Hr.
      destruct names as [|r [|? ?]]; try done.
      exists r. split; [done|]. cbn in Hr. congruence.
    + destruct (map_find_router state draws 0 names (stdout w))
        as [[e|hs] out]; [done|].
      destruct (map_nice_router_name nice_router_name hs) as [e|ns]; [done|].
      intros [= <-]. cbn [send_build build_requests set_stdout]. split.
      * intros Heq. apply app_inv_head in Heq. done.
      * intros (r & -> & Hr). cbn in Ha.
        rewrite Hr, !bool_decide_eq_true_2 in Ha by done. done.
Qed.

Lemma path_is_left_to_tor_only_for_sole_auto_witness :
  build_circuit (λ _, "hop")
    (MkTorState {["Auto" := MkRouter "Auto" "$0A"]} ∅ ∅) (λ _, 0%nat)
    ["Auto"] (MkWorld [] [] [] [] []) =
  (AwaitBuildReply, send_build None (MkWorld [] [] [] [] [])).
Proof.
  apply (path_is_left_to_tor_only_for_sole_auto (λ _, "hop")
           (MkTorState {["Auto" := MkRouter "Auto" "$0A"]} ∅ ∅) (λ _, 0%nat)
           [] (MkWorld [] [] [] [] [])).
  reflexivity.
Defined.

End MoreBuildProps.

(** ** The listener of a build, continued *)
Section MoreListenerProps.
Import Py Twisted Circ.

Lemma text_app (a b : list string) : text (a ++ b) = text a +:+ text b.
Proof.
  unfold text. induction a as [|x a IH]; [done|].
  cbn [app foldr]. by rewrite IH, app_assoc_str.
Qed.

Lemma fold_left_arrow_prefix (l : list string) (a b : string) :
  fold_left (λ acc y, acc +:+ " -> " +:+ y) l (a +:+ b) =
  a +:+ fold_left (λ acc y, acc +:+ " -> " +:+ y) l b.
Proof.
  revert b. induction l as [|y l IH]; intros b; [done|].
  cbn [fold_left]. by rewrite app_assoc_str, IH.
Qed.

Lemma notify_all_app green red l1 l2 self out :
  notify_all green red (l1 ++ l2) self out =
  let '(es1, s1, o1) := notify_all green red l1 self out in
  let '(es2, s2, o2) := notify_all green red l2 s1 o1 in
  (es1 ++ es2, s2, o2).
Proof.
  revert self out. induction l1 as [|n l1 IH]; intros self out.
  - cbn [app notify_all].
    by destruct (notify_all green red l2 self out) as [[es2 s2] o2].
  - cbn [app notify_all].
    destruct (notify green red n self out) as [[e s0] o0].
    rewrite IH.
    destruct (notify_all green red l1 s0 o0) as [[es1 s1] o1].
    by destruct (notify_all green red l2 s1 o1) as [[es2 s2] o2].
Qed.

(** After the first hop has been printed, each [extend] for the circuit
    adds an arrow and the hop's name. *)
Lemma notify_all_extends_later green red self ns out :
  first self = false →
  Forall (λ n, notification_id n = circid self →
               match n with Extend _ _ => True | _ => False end) ns →
  let '(es, self', out') := notify_all green red ns self out in
  text out' =
    fold_left (λ acc y, acc +:+ " -> " +:+ y)
      (own_hops (circid self) ns) (text out) ∧
  Forall (λ e, e = None) es ∧ self' = self.
Proof.
  intros Hfirst Hns. revert out.
  induction Hns as [|n ns Hn _ IH]; intros out; [done|].
  cbn [notify_all own_hops omap list_omap].
  destruct (decide (notification_id n = circid self)) as [Hid|Hid].
  - specialize (Hn Hid). destruct n as [c r| | |]; try done.
    cbn [notify notification_id] in *. unfold circuit_extend.
    rewrite !decide_True, Hfirst by done. cbn [fold_left].
    specialize (IH (out ++ [" -> "; name r])).
    destruct (notify_all green red ns self _) as [[es s'] o'].
    destruct IH as (Ht & Hes & ->). split; [|by split; [constructor|]].
    rewrite Ht, text_app. unfold text at 2. cbn [foldr].
    by rewrite app_empty_r.
  - rewrite (notify_other_circuit green red n self out Hid).
    specialize (IH out).
    destruct (notify_all green red ns self out) as [[es s'] o'].
    destruct IH as (Ht & Hes & ->). split; [|by split; [constructor|]].
    rewrite Ht. f_equal.
    destruct n as [c r| | |]; try done.
    cbn [notification_id] in Hid. by rewrite decide_False.
Qed.

(** X10. While a circuit is being extended the listener prints its path: the
    names of the hops in the order of the [extend] notifications for the
    circuit, [ -> ] between them; notifications for other circuits leave no
    trace in it, and [all_done] stays as it was. *)
Theorem extend_notifications_print_the_path
    (green red : string → string) (self : _BuiltCircuitListener)
    (ns : list notification) (out : list string) :
  first self = true →
  Forall (λ n, notification_id n = circid self →
               match n with Extend _ _ => True | _ => False end) ns →
  let '(es, self', out') := notify_all green red ns self out in
  text out' = text out +:+ str_join " -> " (own_hops (circid self) ns) ∧
  Forall (λ e, e = None) es ∧
  _all_done self' = _all_done self.
Proof.
  intros Hfirst Hns. revert out.
  induction Hns as [|n ns Hn Hns IH]; intros out.
  - cbn. by rewrite app_empty_r.
  - cbn [notify_all own_hops omap list_omap].
    destruct (decide (notification_id n = circid self)) as [Hid|Hid].
    + specialize (Hn Hid). destruct n as [c r| | |]; try done.
      cbn [notify notification_id] in *. unfold circuit_extend.
      rewrite !decide_True, Hfirst by done.
      pose proof (notify_all_extends_later green red
        (MkListener (circid self) false (_all_done self)) ns
        (out ++ [name r]) eq_refl Hns) as Hl.
      destruct (notify_all green red ns _ _) as [[es s'] o'].
      destruct Hl as (Ht & Hes & ->). cbn [circid] in Ht.
      split; [|by split; [constructor|]].
      rewrite Ht, text_app. unfold text at 2. cbn [foldr str_join].
      by rewrite app_empty_r, fold_left_arrow_prefix.
    + rewrite (notify_other_circuit green red n self out Hid).
      specialize (IH out).
      destruct (notify_all green red ns self out) as [[es s'] o'].
      destruct IH as (Ht & Hes & Hd). split; [|by split; [constructor|]].
      rewrite Ht. do 2 f_equal.
      destruct n as [c r| | |]; try done.
      cbn [notification_id] in Hid. by rewrite decide_False.
Qed.

Lemma extend_notifications_print_the_path_witness :
  let '(es, self', out') :=
    notify_all (λ x, x) (λ x, x)
      [Extend (MkCircuit 5) (MkRouter "alpha" "$0A");
       Extend (MkCircuit 9) (MkRouter "other" "$0C");
       Built (MkCircuit 9);
       Extend (MkCircuit 5) (MkRouter "beta" "$0B")]
      (MkListener 5 true NotCalled) ["Circuit ID 5: "] in
  text out' = text ["Circuit ID 5: "] +:+ "alpha -> beta" ∧
  Forall (λ e, e = None) es ∧ _all_done self' = NotCalled.
Proof.
  apply (extend_notifications_print_the_path (λ x, x) (λ x, x)
           (MkListener 5 true NotCalled)
           [Extend (MkCircuit 5) (MkRouter "alpha" "$0A");
            Extend (MkCircuit 9) (MkRouter "other" "$0C");
            Built (MkCircuit 9);
            Extend (MkCircuit 5) (MkRouter "beta" "$0B")]
           ["Circuit ID 5: "]).
  - reflexivity.
  - repeat constructor; cbn; intros; done.
Defined.

(** X11. The result of a build is that of the first [built], [closed] or
    [failed] notification for its circuit: success for the first two, the
    failure with the two reasons for the last; nothing that comes after it,
    for this circuit or another, changes the result. *)
Theorem first_terminal_notification_decides
    (green red : string → string) (self : _BuiltCircuitListener)
    (pre : list notification) (t : notification) (post : list notification)
    (out : list string) :
  _all_done self = NotCalled →
  Forall (λ n, notification_id n = circid self →
               match n with Extend _ _ => True | _ => False end) pre →
  notification_id t = circid self →
  match t with Extend _ _ => False | _ => True end →
  build_outcome
    (_all_done (notify_all green red (pre ++ t :: post) self out).1.2) =
  Some (match t with
        | Failed _ kw =>
            inl (RuntimeError
              (red "failed" +:+ " (" +:+ default EmptyString (reason kw)
               +:+ ", " +:+ default EmptyString (remote_reason kw) +:+ ")."))
        | _ => inr tt
        end).
Proof.
  intros Hd Hpre Hid Hterm. rewrite notify_all_app.
  pose proof (notify_all_spec green red pre self out) as Hs.
  destruct (notify_all green red pre self out) as [[es1 s1] o1].
  destruct Hs as (Hc1 & _ & Hres1 & _).
  assert (_all_done s1 = NotCalled) as Hd1.
  { destruct (_all_done s1) eqn:E; [done|].
    destruct (Hres1 Hd) as (n & Hn & Hnid & Hnt); [done|].
    rewrite Forall_forall in Hpre. specialize (Hpre n Hn Hnid).
    by destruct n. }
  cbn [notify_all].
  pose proof (notify_own_circuit green red t s1 o1) as Ht.
  destruct (notify green red t s1 o1) as [[e s2] o2]. cbn [fst snd] in Ht.
  destruct Ht as [_ Hd2]; [congruence|done|].
  pose proof (notify_all_spec green red post s2 o2) as Hs.
  destruct (notify_all green red post s2 o2) as [[es3 s3] o3].
  destruct Hs as (_ & Hkeep & _). cbn [fst snd].
  destruct t as [| |c kw|c kw]; try done;
    by rewrite (Hkeep _ Hd2).
Qed.

Lemma first_terminal_notification_decides_witness :
  build_outcome
    (_all_done
       (notify_all (λ x, x) (λ x, x)
          ([Extend (MkCircuit 5) (MkRouter "alpha" "$0A"); Built (MkCircuit 9)]
           ++ Failed (MkCircuit 5) (MkKw (Some "TIMEOUT") (Some "NONE"))
           :: [Built (MkCircuit 5)])
          (MkListener 5 true NotCalled) []).1.2) =
  Some (inl (RuntimeError
    ("failed" +:+ " (" +:+ default EmptyString (Some "TIMEOUT")
     +:+ ", " +:+ default EmptyString (Some "NONE") +:+ ")."))).
Proof.
  apply (first_terminal_notification_decides (λ x, x) (λ x, x)
           (MkListener 5 true NotCalled)
           [Extend (MkCircuit 5) (MkRouter "alpha" "$0A"); Built (MkCircuit 9)]
           (Failed (MkCircuit 5) (MkKw (Some "TIMEOUT") (Some "NONE")))
           [Built (MkCircuit 5)] []).
  - reflexivity.
  - repeat constructor; cbn; intros; done.
  - reflexivity.
  - exact I.
Defined.

End MoreListenerProps.

(** ** Deleting circuits, continued *)
Section MoreDeleteProps.
Import Py Twisted Circ.

Lemma start_deletes_world delete if_unused w :
  build_requests (start_deletes delete if_unused w).2 = build_requests w ∧
  close_requests (start_deletes delete if_unused w).2 = close_requests w ∧
  circuit_listeners (start_deletes delete if_unused w).2 = circuit_listeners w.
Proof.
  revert w. induction delete as [|c delete IH]; intros w; [done|].
  cbn [start_deletes delete_circuit].
  specialize (IH (print ("Deleting circuit " +:+
    (if if_unused then "(if unused) " else EmptyString) +:+ dq +:+
    pretty c +:+ dq +:+ "...") w)).
  destruct (start_deletes delete if_unused _) as [gs w2]. exact IH.
Qed.

(** One result handed to one generator: it keeps its circuit id and flag,
    never goes back to its first [yield], and sends at most the one close
    request for its own circuit, on leaving the first [yield]. *)
Lemma resume_step d r w :
  let d' := (resume d r w).1 in
  let w' := (resume d r w).2 in
  d_circid d' = d_circid d ∧ d_ifunused d' = d_ifunused d ∧
  build_requests w' = build_requests w ∧
  circuit_listeners w' = circuit_listeners w ∧
  ((close_requests w' = close_requests w ∧
    (d_status d' = AwaitState → d_status d = AwaitState)) ∨
   (close_requests w' = close_requests w ++ [(d_circid d, d_ifunused d)] ∧
    d_status d = AwaitState ∧ d_status d' ≠ AwaitState)).
Proof.
  destruct d as [c u st]. unfold resume. cbn [d_circid d_ifunused d_status].
  destruct st as [|circ|circ|res], r as [[e|state]|[e|s]|res'];
    cbn [fst snd d_circid d_ifunused d_status];
    try (repeat split; by left).
  destruct (circuits state !! c);
    cbn [fst snd d_circid d_ifunused d_status send_close close_requests
         build_requests circuit_listeners];
    repeat split; (by left) || (by right).
Qed.

Lemma pending_insert (gs : list deletion) k d d' :
  gs !! k = Some d →
  (length (filter (λ g, d_status g = AwaitState) (<[k:=d']> gs)) +
   (if decide (d_status d = AwaitState) then 1 else 0) =
   length (filter (λ g, d_status g = AwaitState) gs) +
   (if decide (d_status d' = AwaitState) then 1 else 0))%nat.
Proof.
  intros Hk. rewrite insert_take_drop by (by eapply lookup_lt_Some).
  rewrite <- (take_drop_middle gs k d Hk) at 3.
  rewrite !filter_app, !filter_cons, !length_app.
  do 2 case_decide; cbn [length]; lia.
Qed.

(** Through any schedule: the generators keep their circuit ids and flags,
    and the close requests sent, together with the generators still at
    their first [yield], never outnumber the generators. *)
Lemma deliver_all_requests rs gs w :
  let gs' := (deliver_all rs gs w).1 in
  let w' := (deliver_all rs gs w).2 in
  (λ g, (d_circid g, d_ifunused g)) <$> gs' =
    (λ g, (d_circid g, d_ifunused g)) <$> gs ∧
  build_requests w' = build_requests w ∧
  circuit_listeners w' = circuit_listeners w ∧
  ∃ added,
    close_requests w' = close_requests w ++ added ∧
    Forall (λ rq, rq ∈ (λ g, (d_circid g, d_ifunused g)) <$> gs) added ∧
    (length added + length (filter (λ g, d_status g = AwaitState) gs') ≤
     length (filter (λ g, d_status g = AwaitState) gs))%nat.
Proof.
  cbv zeta. revert gs w. induction rs as [|[k r] rs IH]; intros gs w.
  - cbn [deliver_all fst snd]. repeat split; try done.
    exists []. rewrite app_nil_r. by repeat split; [constructor|cbn; lia].
  - cbn [deliver_all]. unfold deliver.
    destruct (gs !! k) as [d|] eqn:Hk; [|apply IH].
    pose proof (resume_step d r w) as Hstep. cbv zeta in Hstep.
    destruct (resume d r w) as [d' w1]. cbn [fst snd] in Hstep.
    destruct Hstep as (Hc & Hu & Hb & Hl & Hclose).
    specialize (IH (<[k:=d']> gs) w1).
    destruct IH as (Hkeys & Hb' & Hl' & added & Hadd & Hin & Hcount).
    assert ((λ g, (d_circid g, d_ifunused g)) <$> <[k:=d']> gs =
            (λ g, (d_circid g, d_ifunused g)) <$> gs) as Hk'.
    { rewrite list_fmap_insert, Hc, Hu. apply list_insert_id.
      by rewrite list_lookup_fmap, Hk. }
    rewrite Hk' in Hkeys, Hin.
    split; [done|]. split; [congruence|]. split; [congruence|].
    pose proof (pending_insert gs k d d' Hk) as Hp.
    destruct Hclose as [[Hsame Hback]|(Hsent & Hst & Hst')].
    + exists added. split; [congruence|]. split; [done|].
      repeat case_decide; try lia. by destruct (Hback ltac:(done)).
    + exists ((d_circid d, d_ifunused d) :: added).
      split; [rewrite Hadd, Hsent; by rewrite <- app_assoc|].
      split.
      * constructor; [|done]. apply list_elem_of_fmap. exists d.
        split; [done|]. by eapply list_elem_of_lookup_2.
      * rewrite decide_True, decide_False in Hp by done. cbn [length]. lia.
Qed.

(** X12. Through any schedule of results, every close request the batch sends is
    for one of the circuit ids asked for and carries the [if_unused] flag
    of the call; there are never more close requests than ids; and the
    batch sends no build request and registers no circuit listener. *)
Theorem close_requests_come_from_the_batch
    (delete : list Z) (if_unused : bool) (w : world)
    (rs : list (nat * reply)) :
  let w' :=
    (deliver_all rs (start_deletes delete if_unused w).1
       (start_deletes delete if_unused w).2).2 in
  build_requests w' = build_requests w ∧
  circuit_listeners w' = circuit_listeners w ∧
  ∃ added,
    close_requests w' = close_requests w ++ added ∧
    Forall (λ rq, rq.1 ∈ delete ∧ rq.2 = if_unused) added ∧
    (length added ≤ length delete)%nat.
Proof.
  cbv zeta.
  pose proof (deliver_all_requests rs (start_deletes delete if_unused w).1
                (start_deletes delete if_unused w).2) as H.
  cbv zeta in H. destruct H as (_ & Hb & Hl & added & Hadd & Hin & Hcount).
  destruct (start_deletes_world delete if_unused w) as (Hb0 & Hc0 & Hl0).
  split; [congruence|]. split; [congruence|].
  exists added. split; [congruence|].
  rewrite start_deletes_fst in Hin, Hcount. split.
  - eapply Forall_impl; [exact Hin|]. intros [c u] Hrq.
    rewrite <- list_fmap_compose in Hrq.
    apply list_elem_of_fmap in Hrq as (c' & [= -> ->] & Hc'). done.
  - pose proof (length_filter (λ g, d_status g = AwaitState)
      ((λ c, MkDeletion c if_unused AwaitState) <$> delete)) as Hf.
    rewrite length_fmap in Hf. lia.
Qed.

(** X13. One deletion run to its end with a willing daemon: it succeeds, with
    one close request sent, when the state holds the circuit; when it does
    not, it fails with the [RuntimeError] that names the id and sends the
    daemon nothing. *)
Theorem deletion_outcome_follows_the_state
    (circid : Z) (ifunused : bool) (state : TorState) (status : string)
    (w : world) :
  let started := start_deletes [circid] ifunused w in
  let ended :=
    deliver_all
      [(0%nat, StateReply (inr state)); (0%nat, CloseReply (inr status));
       (0%nat, ClosedReply (inr tt))] started.1 started.2 in
  match circuits state !! circid with
  | Some _ =>
      run_deletes ended.1 = Some (inr tt) ∧
      close_requests ended.2 = close_requests w ++ [(circid, ifunused)] ∧
      stdout ended.2 =
        stdout w ++
        ["Deleting circuit " +:+
           (if ifunused then "(if unused) " else EmptyString) +:+ dq +:+
           pretty circid +:+ dq +:+ "..." +:+ nl;
         status +:+ " (waiting for CLOSED)..." +:+ nl]
  | None =>
      run_deletes ended.1 =
        Some (inl (RuntimeError ("No such circuit '" +:+ pretty circid +:+ "'"))) ∧
      close_requests ended.2 = close_requests w ∧
      stdout ended.2 =
        stdout w ++
        ["Deleting circuit " +:+
           (if ifunused then "(if unused) " else EmptyString) +:+ dq +:+
           pretty circid +:+ dq +:+ "..." +:+ nl]
  end.
Proof.
  cbv zeta. destruct (circuits state !! circid) as [circ|] eqn:E;
    cbn [start_deletes delete_circuit fst snd deliver_all];
    unfold deliver; cbn [lookup list_lookup]; unfold resume;
    cbn [d_status d_circid d_ifunused]; rewrite !E;
    cbn [insert list_insert lookup list_lookup fst snd d_status d_circid
         d_ifunused send_close print write close_requests stdout].
  - rewrite <- !app_assoc. by rewrite !app_assoc_str.
  - by rewrite !app_assoc_str.
Qed.

End MoreDeleteProps.

(** ** The [circ] command *)
Section CircCommandProps.
Import Py Twisted Circ.

Lemma split_on_nonempty (sep : ascii) (s : string) : split_on sep s ≠ [].
Proof.
  destruct s as [|c s]; [done|]. cbn [split_on].
  destruct (decide (c = sep)); [done|]. by destruct (split_on sep s).
Qed.

Lemma fold_left_comma (l : list string) (a : string) :
  fold_left (λ acc y, acc +:+ "," +:+ y) l a =
  a +:+ fold_left (λ acc y, acc +:+ "," +:+ y) l EmptyString.
Proof.
  revert a. induction l as [|y l IH]; intros a; cbn [fold_left].
  - by rewrite app_empty_r.
  - rewrite IH, (IH (EmptyString +:+ "," +:+ y)).
    by rewrite !app_assoc_str.
Qed.

(** What [split_on] cuts apart, [str_join] with the same separator puts
    together again. *)
Lemma split_on_join (s : string) :
  str_join "," (split_on ","%char s) = s.
Proof.
  induction s as [|c s IH]; [done|]. cbn [split_on].
  pose proof (split_on_nonempty ","%char s) as Hne.
  destruct (split_on ","%char s) as [|x xs]; [done|].
  cbn [str_join] in IH. rewrite fold_left_comma in IH.
  destruct (decide (c = ","%char)) as [->|Hc]; cbn [str_join fold_left].
  - rewrite fold_left_comma, app_nil, app_assoc_str, IH. done.
  - rewrite fold_left_comma, app_cons, IH. done.
Qed.

(** X14. The [circ] command goes through only when exactly one of [--list],
    [--build] and [--delete] is given (an empty [--build] counts as not
    given), and [run] then starts the operation of that option and no
    other: the listing prints its heading, the deletions are started for
    the ids given, the build gets the comma-separated tokens of its
    argument. *)
Theorem circ_command_starts_the_one_operation
    (if_unused verbose : bool) (list : option bool) (build : option string)
    (delete : Datatypes.list Z) (w : world) :
  match Cli.circ if_unused verbose list build delete w with
  | Cli.UsageError _ =>
      (flag_set list = false ∧ given build = false ∧ delete = []) ∨
      (flag_set list = true ∧ given build = true) ∨
      (flag_set list = true ∧ delete ≠ []) ∨
      (given build = true ∧ delete ≠ [])
  | Cli.Ran (Listing v, w') =>
      list = Some true ∧ given build = false ∧ delete = [] ∧
      v = verbose ∧ w' = print "Circuits:" w
  | Cli.Ran (Deleting gs, w') =>
      flag_set list = false ∧ given build = false ∧ delete ≠ [] ∧
      (gs, w') = start_deletes delete if_unused w
  | Cli.Ran (Building routers, w') =>
      flag_set list = false ∧ delete = [] ∧ w' = w ∧
      ∃ b, build = Some b ∧ b ≠ EmptyString ∧
           routers = split_on ","%char b ∧ str_join "," routers = b
  | Cli.Ran (Finished, _) => False
  end.
Proof.
  unfold Cli.circ, run.
  destruct list as [[]|], build as [[|c b]|], delete as [|d delete];
    cbn [flag_set given truthy filter list_filter length negb bool_decide
         decide_rel];
    rewrite ?bool_decide_eq_true_2, ?bool_decide_eq_false_2 by (done || (cbn; lia));
    cbn [filter list_filter length negb andb orb];
    repeat (rewrite decide_True by done || rewrite decide_False by done);
    cbn [length negb];
    rewrite ?bool_decide_eq_true_2, ?bool_decide_eq_false_2 by (done || (cbn; lia));
    cbn [negb flag_set given truthy default];
    rewrite ?bool_decide_eq_true_2, ?bool_decide_eq_false_2 by (done || (cbn; lia));
    try (destruct (start_deletes (d :: delete) if_unused w) as [gs w1] eqn:Hs);
    try tauto; try (repeat split; done || by auto).
  all: repeat split; try done.
  all: eexists; repeat split; try done; apply split_on_join.
Qed.

End CircCommandProps.

(** ** Waiting for a router, continued *)
Section MoreRelayProps.
Import Py Twisted Relay.

Lemma startswith_sigil (s : string) : startswith ("$" +:+ s) "$" = true.
Proof. apply prefix_app. by exists s. Qed.

Lemma hex_id_cases (arg : string) :
  (len arg = 40%nat ∧ startswith arg "$" = false ∧ hex_id arg = "$" +:+ arg) ∨
  ((len arg ≠ 40%nat ∨ startswith arg "$" = true) ∧ hex_id arg = arg).
Proof.
  unfold hex_id. destruct (decide (len arg = 40%nat)) as [Hl|Hl].
  - rewrite bool_decide_eq_true_2 by done.
    destruct (startswith arg "$") eqn:Hs; cbn [andb negb]; [right|left]; auto.
  - rewrite bool_decide_eq_false_2 by done. right. auto.
Qed.

(** X15. [router_await] turns an argument away exactly when it is forty-one
    characters long and does not start with the sigil; whether the
    characters are hexadecimal digits plays no part, and a nickname of any
    other length is looked up as it stands. *)
Theorem router_await_rejects_only_bare_41
    (routers : gmap string Circ.Router) (arg : string) (w : world) :
  (router_await routers arg w).1 = NotHex ↔
  len arg = 41%nat ∧ startswith arg "$" = false.
Proof.
  unfold router_await.
  destruct (hex_id_cases arg) as [(Hl & Hs & ->)|[Hc ->]].
  - rewrite startswith_sigil. cbn [negb andb].
    split; [|intros [? _]; congruence].
    destruct (routers !! ("$" +:+ arg)); by cbn.
  - destruct (startswith arg "$") eqn:Hs; cbn [negb andb].
    + split; [|by intros [_ ?]]. destruct (routers !! arg); by cbn.
    + destruct (decide (len arg = 41%nat)) as [Hl|Hl].
      * rewrite bool_decide_eq_true_2 by done. by cbn.
      * rewrite bool_decide_eq_false_2 by done.
        split; [|by intros [? _]]. destruct (routers !! arg); by cbn.
Qed.

(** X16. A router id of forty characters may be given with or without the
    sigil: [router_await] and [router_info] do with the bare id exactly
    what they do with the id behind the sigil. *)
Theorem router_await_takes_id_with_or_without_sigil
    (routers : gmap string Circ.Router) (all_routers : list Circ.Router)
    (h : string) (w : world) :
  len h = 40%nat →
  startswith h "$" = false →
  router_await routers h w = router_await routers ("$" +:+ h) w ∧
  router_info routers all_routers h =
  router_info routers all_routers ("$" +:+ h).
Proof.
  intros Hl Hs.
  assert (hex_id h = "$" +:+ h) as Hbare.
  { unfold hex_id. by rewrite bool_decide_eq_true_2, Hs. }
  assert (hex_id ("$" +:+ h) = "$" +:+ h) as Hsigil.
  { unfold hex_id. rewrite bool_decide_eq_false_2; [done|].
    rewrite len_app, Hl. cbn. lia. }
  unfold router_await, router_info. by rewrite Hbare, Hsigil.
Qed.

Lemma router_await_takes_id_with_or_without_sigil_witness :
  router_await
    {["$0123456789ABCDEF0123456789ABCDEF01234567" :=
        Circ.MkRouter "moria" "$0123456789ABCDEF0123456789ABCDEF01234567"]}
    "0123456789ABCDEF0123456789ABCDEF01234567" (MkWorld [] [] []) =
  router_await
    {["$0123456789ABCDEF0123456789ABCDEF01234567" :=
        Circ.MkRouter "moria" "$0123456789ABCDEF0123456789ABCDEF01234567"]}
    ("$" +:+ "0123456789ABCDEF0123456789ABCDEF01234567") (MkWorld [] [] []) ∧
  router_info
    {["$0123456789ABCDEF0123456789ABCDEF01234567" :=
        Circ.MkRouter "moria" "$0123456789ABCDEF0123456789ABCDEF01234567"]}
    [] "0123456789ABCDEF0123456789ABCDEF01234567" =
  router_info
    {["$0123456789ABCDEF0123456789ABCDEF01234567" :=
        Circ.MkRouter "moria" "$0123456789ABCDEF0123456789ABCDEF01234567"]}
    [] ("$" +:+ "0123456789ABCDEF0123456789ABCDEF01234567").
Proof.
  apply (router_await_takes_id_with_or_without_sigil
    {["$0123456789ABCDEF0123456789ABCDEF01234567" :=
        Circ.MkRouter "moria" "$0123456789ABCDEF0123456789ABCDEF01234567"]}
    [] "0123456789ABCDEF0123456789ABCDEF01234567" (MkWorld [] [] []));
    reflexivity.
Defined.

(** A bare id and the id behind the sigil differ where it matters: without
    the step that adds the sigil the bare id would not be found. *)
Example bare_id_is_not_a_key :
  ({["$0123456789ABCDEF0123456789ABCDEF01234567" :=
       Circ.MkRouter "moria" "$0123456789ABCDEF0123456789ABCDEF01234567"]}
     : gmap string Circ.Router) !! "0123456789ABCDEF0123456789ABCDEF01234567"
  = None ∧
  (router_await
     {["$0123456789ABCDEF0123456789ABCDEF01234567" :=
         Circ.MkRouter "moria" "$0123456789ABCDEF0123456789ABCDEF01234567"]}
     "0123456789ABCDEF0123456789ABCDEF01234567" (MkWorld [] [] [])).1 =
  Found (Circ.MkRouter "moria" "$0123456789ABCDEF0123456789ABCDEF01234567").
Proof. split; [by vm_compute|reflexivity]. Qed.

(** X17. The ids that [router_list] prints name their routers again: each line
    is the hex id without the sigil, and [router_await], given such a line
    for a router the state holds under its hex id, has that router at once
    and registers nothing. *)
Theorem listed_id_finds_its_router
    (routers : gmap string Circ.Router) (all_routers : list Circ.Router)
    (r : Circ.Router) (h : string) (w w2 : world) :
  r ∈ all_routers →
  Circ.id_hex r = "$" +:+ h →
  len h = 40%nat →
  startswith h "$" = false →
  routers !! Circ.id_hex r = Some r →
  h ∈ stdout (router_list all_routers w) ∧
  router_await routers h w2 =
  (Found r,
   MkWorld (stdout w2 ++ ["Router already present:"])
     (listeners w2) (deferreds w2)).
Proof.
  intros Hr Hid Hl Hs Hlook. split.
  - unfold router_list. cbn [stdout]. apply elem_of_app. right.
    apply list_elem_of_fmap. exists r. split; [|done]. by rewrite Hid.
  - unfold router_await, hex_id.
    rewrite bool_decide_eq_true_2, Hs by done. cbn [negb andb].
    rewrite startswith_sigil. cbn [negb andb].
    by rewrite <- Hid, Hlook.
Qed.

Lemma listed_id_finds_its_router_witness :
  "0123456789ABCDEF0123456789ABCDEF01234567" ∈
    stdout (router_list
      [Circ.MkRouter "moria" "$0123456789ABCDEF0123456789ABCDEF01234567"]
      (MkWorld [] [] [])) ∧
  router_await
    {["$0123456789ABCDEF0123456789ABCDEF01234567" :=
        Circ.MkRouter "moria" "$0123456789ABCDEF0123456789ABCDEF01234567"]}
    "0123456789ABCDEF0123456789ABCDEF01234567" (MkWorld [] [] []) =
  (Found (Circ.MkRouter "moria" "$0123456789ABCDEF0123456789ABCDEF01234567"),
   MkWorld ([] ++ ["Router already present:"]) [] []).
Proof.
  apply (listed_id_finds_its_router
    {["$0123456789ABCDEF0123456789ABCDEF01234567" :=
        Circ.MkRouter "moria" "$0123456789ABCDEF0123456789ABCDEF01234567"]}
    [Circ.MkRouter "moria" "$0123456789ABCDEF0123456789ABCDEF01234567"]
    (Circ.MkRouter "moria" "$0123456789ABCDEF0123456789ABCDEF01234567")
    "0123456789ABCDEF0123456789ABCDEF01234567"
    (MkWorld [] [] []) (MkWorld [] [] [])).
  - apply elem_of_cons; by left.
  - reflexivity.
  - reflexivity.
  - reflexivity.
  - cbn. by rewrite lookup_singleton_eq.
Defined.

(** Refreshes that never bring the router: the loop waits on, with one
    listener registered at any time, the latest. *)
Lemma refreshes_all_without_router rfs X k ds out :
  length ds = k →
  Forall (λ rf, r_routers rf !! X = None) rfs →
  refreshes rfs (Suspended X k) (MkWorld out [k] (ds ++ [NotCalled])) =
  ((λ i, Suspended X (k + S i)) <$> seq 0 (length rfs),
   replicate (length rfs) None,
   MkWorld
     (out ++ ((λ rf, "Got NEWCONSENSUS at " +:+ r_now rf) <$> rfs))
     [(k + length rfs)%nat]
     ((ds ++ replicate (length rfs) (Called (inr tt))) ++ [NotCalled])).
Proof.
  intros Hk Habs. revert k ds out Hk.
  induction Habs as [|rf0 rfs H0 _ IH]; intros k ds out Hk.
  - cbn [refreshes length seq fmap list_fmap replicate].
    by rewrite !app_nil_r, Nat.add_0_r.
  - cbn [refreshes]. rewrite refresh_without_router by done.
    rewrite (IH (S k) (ds ++ [Called (inr tt)]) _)
      by (rewrite length_app; cbn [length]; lia).
    cbn [length seq fmap list_fmap app replicate].
    rewrite <- !app_assoc. cbn [app].
    rewrite <- fmap_S_seq, <- list_fmap_compose.
    rewrite Nat.add_1_r. replace (S k + length rfs)%nat with (k + S (length rfs))%nat by lia.
    do 2 f_equal. f_equal.
    apply list_fmap_ext. intros _ i _. cbn. f_equal. lia.
Qed.

(** X18. Through any run of refreshes, whatever each of them brings: no listener
    raises; if none of the refreshes has the router the loop is still
    waiting, with exactly one listener registered; otherwise the loop holds
    the router as the first refresh that has it shows it, it was suspended
    until then, no listener is left, and the refreshes after that one are
    not even announced. *)
Theorem await_loop_takes_first_refresh_with_router
    (rfs : list refresh) (X : string) (w : world) :
  listeners w = [] →
  let k := length (deferreds w) in
  let started := _await_router X w in
  let '(sts, es, w') := refreshes rfs started.1 started.2 in
  started.1 = Suspended X k ∧
  Forall (λ e, e = None) es ∧
  match list_find (λ rf, is_Some (r_routers rf !! X)) rfs with
  | Some (i, rf) =>
      ∃ r, r_routers rf !! X = Some r ∧
        sts = ((λ j, Suspended X (k + S j)) <$> seq 0 i) ++
              replicate (length rfs - i) (Found r) ∧
        listeners w' = [] ∧
        stdout w' =
          stdout w ++
          ((λ rf, "Got NEWCONSENSUS at " +:+ r_now rf) <$> take (S i) rfs)
  | None =>
      sts = (λ j, Suspended X (k + S j)) <$> seq 0 (length rfs) ∧
      listeners w' = [(k + length rfs)%nat] ∧
      stdout w' =
        stdout w ++ ((λ rf, "Got NEWCONSENSUS at " +:+ r_now rf) <$> rfs)
  end.
Proof.
  intros Hl. cbv zeta. unfold _await_router, _when_updated. rewrite Hl.
  cbn [fst snd app].
  destruct (refreshes rfs _ _) as [[sts es] w'] eqn:E.
  destruct (list_find _ rfs) as [[i rf]|] eqn:Hfind.
  - apply list_find_Some in Hfind as (Hi & [r Hr] & Hbefore).
    assert (Forall (λ rf, r_routers rf !! X = None) (take i rfs)) as Habs.
    { apply Forall_lookup. intros j y Hj.
      apply lookup_take_Some in Hj as [Hj Hlt].
      apply eq_None_not_Some. by eapply Hbefore. }
    pose proof (lookup_lt_Some _ _ _ Hi) as Hlt.
    rewrite <- (take_drop_middle rfs i rf Hi) in E.
    rewrite (refreshes_until_router _ _ _ _ _ _ _ r) in E by done.
    rewrite length_take_le, length_drop in E by lia.
    injection E as <- <- <-.
    split; [done|]. split; [apply (Forall_replicate _ (S i)); done|].
    exists r. split; [done|]. cbn [stdout listeners].
    split; [|split; [done|]].
    + f_equal. replace (length rfs - i)%nat with (S (length rfs - S i)) by lia.
      done.
    + by rewrite (take_S_r _ _ _ Hi).
  - apply list_find_None in Hfind.
    rewrite refreshes_all_without_router in E; [|done|].
    + injection E as <- <- <-.
      split; [done|]. split; [apply Forall_replicate; done|]. done.
    + eapply Forall_impl; [exact Hfind|]. intros rf Hrf.
      by apply eq_None_not_Some.
Qed.

Lemma await_loop_takes_first_refresh_with_router_witness :
  let '(sts, es, w') :=
    refreshes
      [MkRefresh ∅ "t1";
       MkRefresh {["$X" := Circ.MkRouter "X" "$X"]} "t2";
       MkRefresh ∅ "t3"]
      (_await_router "$X" (MkWorld [] [] [])).1
      (_await_router "$X" (MkWorld [] [] [])).2 in
  (_await_router "$X" (MkWorld [] [] [])).1 = Suspended "$X" 0 ∧
  Forall (λ e, e = None) es ∧
  ∃ r, ({["$X" := Circ.MkRouter "X" "$X"]} : gmap string Circ.Router) !! "$X"
         = Some r ∧
    sts = ((λ j, Suspended "$X" (0 + S j)) <$> seq 0 1) ++
          replicate (3 - 1) (Found r) ∧
    listeners w' = [] ∧
    stdout w' =
      [] ++ ((λ rf, "Got NEWCONSENSUS at " +:+ r_now rf) <$>
             take 2 [MkRefresh ∅ "t1";
                     MkRefresh {["$X" := Circ.MkRouter "X" "$X"]} "t2";
                     MkRefresh ∅ "t3"]).
Proof.
  pose proof (await_loop_takes_first_refresh_with_router
           [MkRefresh ∅ "t1";
            MkRefresh {["$X" := Circ.MkRouter "X" "$X"]} "t2";
            MkRefresh ∅ "t3"] "$X" (MkWorld [] [] []) eq_refl) as H.
  cbv zeta in H.
  assert (list_find (λ rf, is_Some (r_routers rf !! "$X"))
            [MkRefresh ∅ "t1";
             MkRefresh {["$X" := Circ.MkRouter "X" "$X"]} "t2";
             MkRefresh ∅ "t3"] =
          Some (1%nat, MkRefresh {["$X" := Circ.MkRouter "X" "$X"]} "t2"))
    as Hfind by (by vm_compute).
  rewrite Hfind in H. exact H.
Defined.

Lemma elem_of_flat_map {A B} (f : A → list B) (l : list A) (y : B) :
  y ∈ flat_map f l ↔ ∃ x, x ∈ l ∧ y ∈ f x.
Proof.
  induction l as [|a l IH]; cbn [flat_map].
  - split; [by intros ?%not_elem_of_nil | by intros (? & ?%not_elem_of_nil & _)].
  - rewrite elem_of_app, IH. split.
    + intros [Hy|(x & Hx & Hy)].
      * exists a. split; [apply elem_of_cons; by left|done].
      * exists x. split; [apply elem_of_cons; by right|done].
    + intros (x & [->|Hx]%elem_of_cons & Hy); [by left|right; eauto].
Qed.

Lemma filter_none {A} (P : A → Prop) `{∀ x, Decision (P x)} (l : list A) :
  Forall (λ x, ¬ P x) l → filter P l = [].
Proof.
  induction 1 as [|x l Hx _ IH]; [done|].
  by rewrite filter_cons, decide_False, IH.
Qed.

(** X19. [router_info] finds every router that [router_list] lists: given a
    listed id, it shows the router the state holds under that id, with the
    onionoo details, or, when the state holds none under it, the listed
    router among those whose hex id has the argument in it. *)
Theorem router_info_finds_listed_id
    (routers : gmap string Circ.Router) (all_routers : list Circ.Router)
    (r : Circ.Router) (h : string) :
  r ∈ all_routers →
  Circ.id_hex r = "$" +:+ h →
  len h = 40%nat →
  startswith h "$" = false →
  match routers !! Circ.id_hex r with
  | Some relay =>
      router_info routers all_routers h = [PrintRouterInfo relay true]
  | None =>
      PrintRouterInfo r false ∈ router_info routers all_routers h ∧
      ∀ s, Line ("Nothing found (" +:+ s) ∉ router_info routers all_routers h
  end.
Proof.
  intros Hr Hid Hl Hs. unfold router_info, hex_id.
  rewrite bool_decide_eq_true_2, Hs by done. cbn [negb andb].
  rewrite <- Hid. destruct (routers !! Circ.id_hex r) as [relay|]; [done|].
  assert (r ∈ filter (λ r0, str_in (Circ.id_hex r) (Circ.name r0) ||
                            str_in (Circ.id_hex r) (Circ.id_hex r0) = true)
               all_routers) as Hin.
  { apply list_elem_of_filter. split; [|done].
    apply orb_true_iff. right. apply str_in_spec.
    exists EmptyString, EmptyString. by rewrite app_nil, app_empty_r. }
  split.
  - apply elem_of_app. right. apply elem_of_app. right.
    apply elem_of_flat_map. exists r. split; [done|].
    apply elem_of_cons. by left.
  - intros s Hline.
    rewrite bool_decide_eq_false_2 in Hline
      by (intros Hnil; rewrite Hnil in Hin; by apply not_elem_of_nil in Hin).
    cbn [app] in Hline. apply elem_of_app in Hline as [Hline|Hline].
    + case_bool_decide; [|by apply not_elem_of_nil in Hline].
      apply list_elem_of_singleton in Hline. discriminate.
    + apply elem_of_flat_map in Hline as (r0 & _ & Hline).
      apply elem_of_cons in Hline as [?|Hline]; [done|].
      apply list_elem_of_singleton in Hline. discriminate.
Qed.

Lemma router_info_finds_listed_id_witness :
  PrintRouterInfo
    (Circ.MkRouter "moria" "$0123456789ABCDEF0123456789ABCDEF01234567") false ∈
    router_info ∅
      [Circ.MkRouter "gabel" "$FFFF456789ABCDEF0123456789ABCDEF01234567";
       Circ.MkRouter "moria" "$0123456789ABCDEF0123456789ABCDEF01234567"]
      "0123456789ABCDEF0123456789ABCDEF01234567" ∧
  ∀ s, Line ("Nothing found (" +:+ s) ∉
    router_info ∅
      [Circ.MkRouter "gabel" "$FFFF456789ABCDEF0123456789ABCDEF01234567";
       Circ.MkRouter "moria" "$0123456789ABCDEF0123456789ABCDEF01234567"]
      "0123456789ABCDEF0123456789ABCDEF01234567".
Proof.
  pose proof (router_info_finds_listed_id ∅
    [Circ.MkRouter "gabel" "$FFFF456789ABCDEF0123456789ABCDEF01234567";
     Circ.MkRouter "moria" "$0123456789ABCDEF0123456789ABCDEF01234567"]
    (Circ.MkRouter "moria" "$0123456789ABCDEF0123456789ABCDEF01234567")
    "0123456789ABCDEF0123456789ABCDEF01234567") as H.
  rewrite lookup_empty in H. apply H.
  - apply elem_of_cons; right. apply elem_of_cons; by left.
  - reflexivity.
  - reflexivity.
  - reflexivity.
Defined.

(** X20. When no router is stored under the argument, [router_info] reports
    [Nothing found], with the number of routers it went through, exactly
    when no router has the argument in its name or hex id, and it then does
    nothing else; an empty argument therefore shows every router. *)
Theorem router_info_nothing_found_iff_no_match
    (routers : gmap string Circ.Router) (all_routers : list Circ.Router)
    (arg : string) :
  routers !! hex_id arg = None →
  (router_info routers all_routers arg =
     [Line ("Nothing found (" +:+ pretty (length all_routers) +:+
            " routers total)")] ↔
   Forall (λ r, str_in (hex_id arg) (Circ.name r) = false ∧
                str_in (hex_id arg) (Circ.id_hex r) = false) all_routers) ∧
  (arg = EmptyString →
   ∀ r, r ∈ all_routers →
     PrintRouterInfo r false ∈ router_info routers all_routers arg).
Proof.
  intros Hnone. unfold router_info. rewrite Hnone. split.
  - set (cands := filter _ all_routers). split.
    + intros Heq. destruct cands as [|c cs] eqn:Hc.
      * apply Forall_forall. intros r Hr.
        destruct (str_in (hex_id arg) (Circ.name r) ||
                  str_in (hex_id arg) (Circ.id_hex r)) eqn:Hm.
        -- assert (r ∈ cands) as Hin by (by apply list_elem_of_filter).
           rewrite Hc in Hin. by apply not_elem_of_nil in Hin.
        -- by apply orb_false_iff in Hm.
      * rewrite bool_decide_eq_false_2 in Heq by done.
        cbn [app flat_map] in Heq. case_bool_decide; discriminate.
    + intros Hall. assert (cands = []) as ->.
      { apply filter_none. eapply Forall_impl; [exact Hall|].
        intros r [H1 H2]. rewrite H1, H2. done. }
      by rewrite bool_decide_eq_true_2.
  - intros -> r Hr. apply elem_of_app. right. apply elem_of_app. right.
    apply elem_of_flat_map. exists r. split; [|apply elem_of_cons; by left].
    apply list_elem_of_filter. split; [|done].
    change (hex_id EmptyString) with EmptyString. by rewrite str_in_empty.
Qed.

Lemma router_info_nothing_found_iff_no_match_witness :
  router_info ∅ [Circ.MkRouter "moria" "$0A"] "gabel" =
  [Line ("Nothing found (" +:+ pretty (length [Circ.MkRouter "moria" "$0A"])
         +:+ " routers total)")].
Proof.
  apply (router_info_nothing_found_iff_no_match ∅
           [Circ.MkRouter "moria" "$0A"] "gabel"); [reflexivity|].
  repeat constructor.
Defined.

End MoreRelayProps.
